(** * PrivacyBadgerExtension: the encrypted rule ledger and its
      matching / decryption callbacks

    A shallow embedding of [contracts/PrivacyBadgerExtension.sol].
    Storage mappings are finite maps read with the zero default of
    Solidity, [uint256] values are integers with the checked arithmetic
    of Solidity 0.8 (an overflow reverts), memory arrays are lists whose
    allocation reverts above [2^64 - 1] elements and whose out-of-range
    writes revert, and a reverted call leaves the storage as it was. *)

From stdpp Require Import gmap list sorting.
From Stdlib Require Import ZArith Lia.
From Stdlib.Strings Require Import Byte.

Local Open Scope Z_scope.

(** ** Reverts *)

Inductive Error :=
| NotFound            (* require(..., "Rule not found") *)
| NotProcessed        (* require(..., "Not processed") *)
| InvalidProof        (* FHE.checkSignatures reverted *)
| DecodeError         (* abi.decode reverted *)
| ArithmeticOverflow  (* Panic(0x11) *)
| IndexOutOfBounds    (* Panic(0x32) *)
| AllocationTooLarge. (* Panic(0x41) *)

Inductive result (A : Type) :=
| Ok (a : A)
| Revert (e : Error).
Arguments Ok {A} a.
Arguments Revert {A} e.

Definition bind {A B} (c : result A) (k : A -> result B) : result B :=
  match c with
  | Ok a => k a
  | Revert e => Revert e
  end.

Notation "'let*' x ':=' c 'in' k" := (bind c (fun x => k))
  (at level 10, x pattern, c at level 100, k at level 200).

Definition require (b : bool) (e : Error) : result unit :=
  if b then Ok tt else Revert e.

(** ** Machine integers *)

Definition MAX_UINT256 : Z := 2 ^ 256 - 1.
Definition MAX_UINT32 : Z := 2 ^ 32 - 1.
Definition MAX_UINT64 : Z := 2 ^ 64 - 1.

Definition checked_add (a b : Z) : result Z :=
  if a + b <=? MAX_UINT256 then Ok (a + b) else Revert ArithmeticOverflow.

Definition checked_mul (a b : Z) : result Z :=
  if a * b <=? MAX_UINT256 then Ok (a * b) else Revert ArithmeticOverflow.

(** ** Memory arrays and byte strings *)

Definition bytes32 := Z.
Definition bytes := list byte.
Definition address := Z.

(** [new T[](n)]: [n] zero words; a length above [2^64 - 1] panics. *)
Definition new_array (n : Z) : result (list Z) :=
  if n <=? MAX_UINT64
  then Ok (replicate (Z.to_nat n) 0)
  else Revert AllocationTooLarge.

(** [a[i] = v], which panics when [i] is not below the length. *)
Definition array_set (a : list Z) (i : Z) (v : Z) : result (list Z) :=
  if i <? Z.of_nat (length a)
  then Ok (<[Z.to_nat i := v]> a)
  else Revert IndexOutOfBounds.

(** Big-endian value of a run of bytes. *)
Definition be_word (bs : list byte) : Z :=
  fold_left (fun acc b => acc * 256 + Z.of_N (Byte.to_N b)) bs 0.

Definition abi_word (k : nat) (data : bytes) : Z :=
  be_word (take 32 (drop (32 * k) data)).

(** [abi.decode(data, (uint32, bool))]: two head words, each validated. *)
Definition abi_decode_uint32_bool (data : bytes) : result (Z * bool) :=
  let* _ := require (64 <=? Z.of_nat (length data)) DecodeError in
  let score := abi_word 0 data in
  let flag := abi_word 1 data in
  let* _ := require (score <=? MAX_UINT32) DecodeError in
  let* _ := require (flag <=? 1) DecodeError in
  Ok (score, negb (flag =? 0)).

(** [abi.decode(data, (bool))]. *)
Definition abi_decode_bool (data : bytes) : result bool :=
  let* _ := require (32 <=? Z.of_nat (length data)) DecodeError in
  let flag := abi_word 0 data in
  let* _ := require (flag <=? 1) DecodeError in
  Ok (negb (flag =? 0)).

(** ** Loops

    [for (uint256 i = lo; i <= hi; i++) body]: the body runs once for
    each of the [n] values of [i], and [i++] is a checked increment
    that also runs after the last pass. *)

Fixpoint for_loop {S : Type} (n : nat) (i : Z)
    (body : Z -> S -> result S) (s : S) : result S :=
  match n with
  | O => Ok s
  | S n' =>
      let* s' := body i s in
      let* i' := checked_add i 1 in
      for_loop n' i' body s'
  end.

Definition for_1_to {S : Type} (hi : Z)
    (body : Z -> S -> result S) (s : S) : result S :=
  for_loop (Z.to_nat hi) 1 body s.

(** ** The FHE library

    [@fhevm/solidity/lib/FHE.sol] is imported by the contract and is
    not part of it; the contract is modelled over its interface.  The
    library keeps its own request bookkeeping, here the type [oracle];
    a failed [checkSignatures] reverts. *)

Inductive Selector := performMatching_selector | decryptDecision_selector.

Class FHELib := {
  euint32 : Type;
  ebool : Type;
  euint32_zero : euint32;
  ebool_zero : ebool;
  euint32_toBytes32 : euint32 -> bytes32;
  ebool_toBytes32 : ebool -> bytes32;
  asEuint32 : Z -> euint32;
  asEbool : bool -> ebool;
  oracle : Type;
  requestComputation : oracle -> list bytes32 -> Selector -> Z * oracle;
  requestDecryption : oracle -> list bytes32 -> Selector -> Z * oracle;
  checkSignatures : oracle -> Z -> bytes -> bytes -> bool
}.

(** ** Storage, calls and receipts *)

Section Contract.
Context {FHE : FHELib}.

Record EncryptedRule := mkRule {
  encryptedDomainPattern : euint32;
  encryptedPathPattern : euint32;
  encryptedRuleType : euint32;
  timestamp : Z
}.

Record MatchResult := mkMatch {
  encryptedMatchScore : euint32;
  encryptedShouldBlock : ebool;
  isProcessed : bool
}.

Record State := mkState {
  ruleCount : Z;
  filteringRules : gmap Z EncryptedRule;
  matchResults : gmap Z MatchResult;
  lastUpdateTimestamp : Z;
  lastSyncTimestamps : gmap Z Z
}.

Definition MIN_MATCH_SCORE : Z := 80.

(** The contract storage together with the library's bookkeeping. *)
Record World := mkWorld {
  storage : State;
  backend : oracle
}.

Record Env := mkEnv {
  msg_sender : address;
  block_timestamp : Z
}.

Inductive Event :=
| RuleAdded (ruleId : Z) (ts : Z)
| RuleUpdated (ruleId : Z)
| MatchingRequested (user : address)
| MatchProcessed (user : address).

(** What a call hands to the FHE library. *)
Inductive Request :=
| ComputationRequest (ciphertexts : list bytes32) (cb : Selector) (reqId : Z)
| DecryptionRequest (ciphertexts : list bytes32) (cb : Selector) (reqId : Z).

Definition RuleUpdates : Type :=
  list bytes32 * list bytes32 * list bytes32 * list Z.

Inductive Value :=
| VUnit
| VBool (b : bool)
| VEbool (e : ebool)
| VUpdates (u : RuleUpdates).

Record Effects := mkEffects {
  returned : Value;
  logs : list Event;
  requests : list Request
}.

(** Reads of storage mappings: an absent key reads as zero. *)
Definition zero_rule : EncryptedRule :=
  mkRule euint32_zero euint32_zero euint32_zero 0.
Definition zero_match : MatchResult :=
  mkMatch euint32_zero ebool_zero false.

Definition rule_at (st : State) (i : Z) : EncryptedRule :=
  default zero_rule (filteringRules st !! i).
Definition match_of (st : State) (a : address) : MatchResult :=
  default zero_match (matchResults st !! a).
Definition sync_of (st : State) (a : address) : Z :=
  default 0 (lastSyncTimestamps st !! a).

(** Writes of storage. *)
Definition set_ruleCount (n : Z) (st : State) : State :=
  mkState n (filteringRules st) (matchResults st)
          (lastUpdateTimestamp st) (lastSyncTimestamps st).
Definition set_rule (i : Z) (r : EncryptedRule) (st : State) : State :=
  mkState (ruleCount st) (<[i := r]> (filteringRules st)) (matchResults st)
          (lastUpdateTimestamp st) (lastSyncTimestamps st).
Definition set_match (a : address) (m : MatchResult) (st : State) : State :=
  mkState (ruleCount st) (filteringRules st) (<[a := m]> (matchResults st))
          (lastUpdateTimestamp st) (lastSyncTimestamps st).
Definition set_lastUpdateTimestamp (t : Z) (st : State) : State :=
  mkState (ruleCount st) (filteringRules st) (matchResults st)
          t (lastSyncTimestamps st).
Definition set_sync (a : address) (t : Z) (st : State) : State :=
  mkState (ruleCount st) (filteringRules st) (matchResults st)
          (lastUpdateTimestamp st) (<[a := t]> (lastSyncTimestamps st)).

Definition with_storage (st : State) (w : World) : World :=
  mkWorld st (backend w).

(** ** The contract's functions *)

(** The modifier's body is the placeholder [_;] alone. *)
Definition onlyMaintainer {A} (env : Env) (body : result A) : result A :=
  body.

Definition addFilteringRule (env : Env)
    (domainPattern pathPattern ruleType : euint32) (w : World)
  : result (World * Effects) :=
  onlyMaintainer env (
    let st := storage w in
    let* newId := checked_add (ruleCount st) 1 in
    let st := set_ruleCount newId st in
    let st := set_rule newId
                (mkRule domainPattern pathPattern ruleType
                        (block_timestamp env)) st in
    let st := set_lastUpdateTimestamp (block_timestamp env) st in
    Ok (with_storage st w,
        mkEffects VUnit [RuleAdded newId (block_timestamp env)] [])).

Definition updateFilteringRule (env : Env) (ruleId : Z)
    (newDomainPattern newPathPattern newRuleType : euint32) (w : World)
  : result (World * Effects) :=
  onlyMaintainer env (
    let st := storage w in
    let* _ := require (0 <? timestamp (rule_at st ruleId)) NotFound in
    let r := rule_at st ruleId in
    let st := set_rule ruleId
                (mkRule newDomainPattern (encryptedPathPattern r)
                        (encryptedRuleType r) (timestamp r)) st in
    let r := rule_at st ruleId in
    let st := set_rule ruleId
                (mkRule (encryptedDomainPattern r) newPathPattern
                        (encryptedRuleType r) (timestamp r)) st in
    let r := rule_at st ruleId in
    let st := set_rule ruleId
                (mkRule (encryptedDomainPattern r) (encryptedPathPattern r)
                        newRuleType (timestamp r)) st in
    let r := rule_at st ruleId in
    let st := set_rule ruleId
                (mkRule (encryptedDomainPattern r) (encryptedPathPattern r)
                        (encryptedRuleType r) (block_timestamp env)) st in
    let st := set_lastUpdateTimestamp (block_timestamp env) st in
    Ok (with_storage st w, mkEffects VUnit [RuleUpdated ruleId] [])).

(** One pass of the loop that copies rule [i] into the payload. *)
Definition copy_rule (st : State) (i : Z) (acc : Z * list bytes32)
  : result (Z * list bytes32) :=
  let '(index, ciphertexts) := acc in
  let rule := rule_at st i in
  let* ciphertexts :=
    array_set ciphertexts index
      (euint32_toBytes32 (encryptedDomainPattern rule)) in
  let* index := checked_add index 1 in
  let* ciphertexts :=
    array_set ciphertexts index
      (euint32_toBytes32 (encryptedPathPattern rule)) in
  let* index := checked_add index 1 in
  let* ciphertexts :=
    array_set ciphertexts index
      (euint32_toBytes32 (encryptedRuleType rule)) in
  let* index := checked_add index 1 in
  Ok (index, ciphertexts).

Definition requestUrlMatching (env : Env)
    (encryptedDomain encryptedPath : euint32) (w : World)
  : result (World * Effects) :=
  let st := storage w in
  let* n3 := checked_mul (ruleCount st) 3 in
  let* len := checked_add n3 2 in
  let* ciphertexts := new_array len in
  let* ciphertexts :=
    array_set ciphertexts 0 (euint32_toBytes32 encryptedDomain) in
  let* ciphertexts :=
    array_set ciphertexts 1 (euint32_toBytes32 encryptedPath) in
  let* (_, ciphertexts) :=
    for_1_to (ruleCount st) (copy_rule st) (2, ciphertexts) in
  let st := set_match (msg_sender env)
              (mkMatch (asEuint32 0) (asEbool false) false) st in
  let '(reqId, o) :=
    requestComputation (backend w) ciphertexts performMatching_selector in
  Ok (mkWorld st o,
      mkEffects VUnit [MatchingRequested (msg_sender env)]
                [ComputationRequest ciphertexts performMatching_selector
                                    reqId]).

Definition performMatching (env : Env) (requestId : Z)
    (results proof : bytes) (w : World) : result (World * Effects) :=
  let st := storage w in
  let* _ :=
    require (checkSignatures (backend w) requestId results proof)
            InvalidProof in
  let* (matchScore, shouldBlock) := abi_decode_uint32_bool results in
  let st := set_match (msg_sender env)
              (mkMatch (asEuint32 matchScore) (asEbool shouldBlock) true)
              st in
  let st := set_sync (msg_sender env) (block_timestamp env) st in
  Ok (with_storage st w,
      mkEffects VUnit [MatchProcessed (msg_sender env)] []).

Definition getEncryptedMatchResult (env : Env) (w : World)
  : result (World * Effects) :=
  let st := storage w in
  let* _ := require (isProcessed (match_of st (msg_sender env)))
                    NotProcessed in
  Ok (w, mkEffects
           (VEbool (encryptedShouldBlock (match_of st (msg_sender env))))
           [] []).

Definition needsUpdate_view (env : Env) (st : State) : bool :=
  sync_of st (msg_sender env) <? lastUpdateTimestamp st.

Definition needsUpdate (env : Env) (w : World) : result (World * Effects) :=
  Ok (w, mkEffects (VBool (needsUpdate_view env (storage w))) [] []).

(** The test both loops of [getRuleUpdates] make on rule [i]. *)
Definition changed (st : State) (a : address) (i : Z) : bool :=
  sync_of st a <? timestamp (rule_at st i).

Definition count_rule (st : State) (a : address) (i : Z) (updateCount : Z)
  : result Z :=
  if changed st a i then checked_add updateCount 1 else Ok updateCount.

Definition Arrays : Type :=
  Z * list bytes32 * list bytes32 * list bytes32 * list Z.

Definition fill_rule (st : State) (a : address) (i : Z) (acc : Arrays)
  : result Arrays :=
  let '(index, domains, paths, types, timestamps) := acc in
  if changed st a i then
    let* domains :=
      array_set domains index
        (euint32_toBytes32 (encryptedDomainPattern (rule_at st i))) in
    let* paths :=
      array_set paths index
        (euint32_toBytes32 (encryptedPathPattern (rule_at st i))) in
    let* types :=
      array_set types index
        (euint32_toBytes32 (encryptedRuleType (rule_at st i))) in
    let* timestamps :=
      array_set timestamps index (timestamp (rule_at st i)) in
    let* index := checked_add index 1 in
    Ok (index, domains, paths, types, timestamps)
  else Ok acc.

Definition getRuleUpdates_view (env : Env) (st : State)
  : result RuleUpdates :=
  let a := msg_sender env in
  let* updateCount := for_1_to (ruleCount st) (count_rule st a) 0 in
  let* domains := new_array updateCount in
  let* paths := new_array updateCount in
  let* types := new_array updateCount in
  let* timestamps := new_array updateCount in
  let* (_, domains, paths, types, timestamps) :=
    for_1_to (ruleCount st) (fill_rule st a)
             (0, domains, paths, types, timestamps) in
  Ok (domains, paths, types, timestamps).

Definition getRuleUpdates (env : Env) (w : World)
  : result (World * Effects) :=
  let* u := getRuleUpdates_view env (storage w) in
  Ok (w, mkEffects (VUpdates u) [] []).

Definition requestDecisionDecryption (env : Env) (w : World)
  : result (World * Effects) :=
  let st := storage w in
  let* _ := require (isProcessed (match_of st (msg_sender env)))
                    NotProcessed in
  let* ciphertexts := new_array 1 in
  let* ciphertexts :=
    array_set ciphertexts 0
      (ebool_toBytes32 (encryptedShouldBlock (match_of st (msg_sender env))))
  in
  let '(reqId, o) :=
    requestDecryption (backend w) ciphertexts decryptDecision_selector in
  Ok (mkWorld st o,
      mkEffects VUnit []
                [DecryptionRequest ciphertexts decryptDecision_selector
                                   reqId]).

Definition decryptDecision (env : Env) (requestId : Z)
    (cleartexts proof : bytes) (w : World) : result (World * Effects) :=
  let* _ :=
    require (checkSignatures (backend w) requestId cleartexts proof)
            InvalidProof in
  let* shouldBlock := abi_decode_bool cleartexts in
  Ok (w, mkEffects VUnit [] []).

(** ** Transactions *)

Inductive Call :=
| AddFilteringRule (domainPattern pathPattern ruleType : euint32)
| UpdateFilteringRule (ruleId : Z)
    (newDomainPattern newPathPattern newRuleType : euint32)
| RequestUrlMatching (encryptedDomain encryptedPath : euint32)
| PerformMatching (requestId : Z) (results proof : bytes)
| GetEncryptedMatchResult
| NeedsUpdate
| GetRuleUpdates
| RequestDecisionDecryption
| DecryptDecision (requestId : Z) (cleartexts proof : bytes).

Definition exec (env : Env) (c : Call) (w : World)
  : result (World * Effects) :=
  match c with
  | AddFilteringRule d p t => addFilteringRule env d p t w
  | UpdateFilteringRule i d p t => updateFilteringRule env i d p t w
  | RequestUrlMatching d p => requestUrlMatching env d p w
  | PerformMatching r res prf => performMatching env r res prf w
  | GetEncryptedMatchResult => getEncryptedMatchResult env w
  | NeedsUpdate => needsUpdate env w
  | GetRuleUpdates => getRuleUpdates env w
  | RequestDecisionDecryption => requestDecisionDecryption env w
  | DecryptDecision r clr prf => decryptDecision env r clr prf w
  end.

(** A transaction either commits its world or reverts to the old one. *)
Definition step (w : World) (tx : Env * Call) : World * result Effects :=
  match exec (fst tx) (snd tx) w with
  | Ok (w', eff) => (w', Ok eff)
  | Revert e => (w, Revert e)
  end.

Fixpoint run (w : World) (txs : list (Env * Call))
  : World * list (result Effects) :=
  match txs with
  | [] => (w, [])
  | tx :: txs' =>
      let '(w1, r) := step w tx in
      let '(w2, rs) := run w1 txs' in
      (w2, r :: rs)
  end.

(** Storage right after deployment. *)
Definition init_state : State := mkState 0 ∅ ∅ 0 ∅.
Definition deploy (o : oracle) : World := mkWorld init_state o.

End Contract.

Arguments mkEffects {FHE} returned logs requests.

(** ** A small instance of the library interface

    Used to run the contract on concrete inputs: a handle is the
    plaintext it stands for, request ids count up from 0, and a proof is
    accepted for an issued request id when it repeats the signed
    bytes. *)

Fixpoint bytes_eqb (a b : bytes) : bool :=
  match a, b with
  | [], [] => true
  | x :: a', y :: b' => Byte.eqb x y && bytes_eqb a' b'
  | _, _ => false
  end.

#[export] Instance SimpleFHE : FHELib := {|
  euint32 := Z;
  ebool := Z;
  euint32_zero := 0;
  ebool_zero := 0;
  euint32_toBytes32 := fun h => h;
  ebool_toBytes32 := fun h => h;
  asEuint32 := fun v => v;
  asEbool := fun b => if b then 1 else 0;
  oracle := Z;
  requestComputation := fun o _ _ => (o, o + 1);
  requestDecryption := fun o _ _ => (o, o + 1);
  checkSignatures := fun o requestId data proof =>
    (0 <=? requestId) && (requestId <? o) && bytes_eqb proof data
|}.

(** ABI encodings used in the examples. *)
Definition word_of_byte (b : byte) : bytes := replicate 31 x00 ++ [b].
Definition encode_score_flag (score flag : byte) : bytes :=
  word_of_byte score ++ word_of_byte flag.

Definition tx (sender : address) (now : Z) (c : @Call SimpleFHE)
  : @Env * @Call SimpleFHE :=
  (mkEnv sender now, c).

(** ** Notions the statements are phrased with *)

Arguments MAX_UINT256 : simpl never.
Arguments MAX_UINT32 : simpl never.
Arguments MAX_UINT64 : simpl never.

(** A loop over an explicit list of indices. *)
Fixpoint foldM {S : Type} (body : Z -> S -> result S) (l : list Z) (s : S)
  : result S :=
  match l with
  | [] => Ok s
  | i :: l' => let* s' := body i s in foldM body l' s'
  end.

Section Derived.
Context {FHE : FHELib}.

(** What [performMatching] writes when it goes through. *)
Definition matched (env : Env) (score : Z) (blk : bool) (st : State) : State :=
  set_sync (msg_sender env) (block_timestamp env)
    (set_match (msg_sender env)
       (mkMatch (asEuint32 score) (asEbool blk) true) st).

(** The ids in use, ascending. *)
Definition rule_ids (st : State) : list Z := seqZ 1 (ruleCount st).

(** The three ciphertext fields of rule [i]. *)
Definition rule_words (st : State) (i : Z) : list bytes32 :=
  let rule := rule_at st i in
  [euint32_toBytes32 (encryptedDomainPattern rule);
   euint32_toBytes32 (encryptedPathPattern rule);
   euint32_toBytes32 (encryptedRuleType rule)].

(** The payload of a match request, in the words of the specification:
    the two URL ciphertexts, then every rule flattened, by ascending id. *)
Definition match_payload (st : State) (encryptedDomain encryptedPath : euint32)
  : list bytes32 :=
  [euint32_toBytes32 encryptedDomain; euint32_toBytes32 encryptedPath]
  ++ flat_map (rule_words st) (rule_ids st).

(** The delta of a client, in the words of the specification: the rules
    stamped strictly later than the client's cursor, by ascending id. *)
Definition changed_ids (st : State) (a : address) : list Z :=
  List.filter (changed st a) (rule_ids st).

Definition rule_updates (st : State) (a : address) : RuleUpdates :=
  let ids := changed_ids st a in
  (map (fun i => euint32_toBytes32 (encryptedDomainPattern (rule_at st i))) ids,
   map (fun i => euint32_toBytes32 (encryptedPathPattern (rule_at st i))) ids,
   map (fun i => euint32_toBytes32 (encryptedRuleType (rule_at st i))) ids,
   map (fun i => timestamp (rule_at st i)) ids).

(** The ledger part of the storage. *)
Definition ledger (st : State) : Z * gmap Z EncryptedRule * Z :=
  (ruleCount st, filteringRules st, lastUpdateTimestamp st).

Definition is_add (c : Call) : bool :=
  match c with AddFilteringRule _ _ _ => true | _ => false end.

Definition is_ledger_write (c : Call) : bool :=
  match c with
  | AddFilteringRule _ _ _ | UpdateFilteringRule _ _ _ _ => true
  | _ => false
  end.

Definition is_ok {A} (r : result A) : bool :=
  match r with Ok _ => true | Revert _ => false end.

(** How many [addFilteringRule] calls of a run went through. *)
Fixpoint successful_adds (txs : list (Env * Call))
    (rs : list (result Effects)) : nat :=
  match txs, rs with
  | tx :: txs', r :: rs' =>
      ((if is_add (snd tx) && is_ok r then 1 else 0)
       + successful_adds txs' rs')%nat
  | _, _ => O
  end.

(** The ids announced by [RuleAdded], in the order they were assigned. *)
Definition added_id (e : Event) : list Z :=
  match e with RuleAdded i _ => [i] | _ => [] end.

Definition assigned_ids (rs : list (result Effects)) : list Z :=
  flat_map (fun r => match r with
                     | Ok eff => flat_map added_id (logs eff)
                     | Revert _ => []
                     end) rs.

(** Block times never go back: each transaction runs at or after [t]
    and at or after the one before it. *)
Fixpoint nondecreasing (t : Z) (txs : list (Env * Call)) : Prop :=
  match txs with
  | [] => True
  | tx :: txs' =>
      t <= block_timestamp (fst tx)
      /\ nondecreasing (block_timestamp (fst tx)) txs'
  end.

Definition no_ledger_writes (txs : list (Env * Call)) : Prop :=
  Forall (fun tx => is_ledger_write (snd tx) = false) txs.

(** The stored ids are 1, ..., [ruleCount]. *)
Definition ledger_dense (st : State) : Prop :=
  0 <= ruleCount st
  /\ dom (filteringRules st) = list_to_set (seqZ 1 (ruleCount st)).

(** No stamp in the ledger is later than [T]. *)
Definition stamps_bounded (T : Z) (st : State) : Prop :=
  0 <= lastUpdateTimestamp st <= T
  /\ forall i, timestamp (rule_at st i) <= lastUpdateTimestamp st.

Definition is_match_request (c : Call) : bool :=
  match c with RequestUrlMatching _ _ => true | _ => false end.

Definition is_match_callback (c : Call) : bool :=
  match c with PerformMatching _ _ _ => true | _ => false end.

(** A call by which address [a] writes its own match result or cursor. *)
Definition own_match_call (a : address) (tx : Env * Call) : bool :=
  (msg_sender (fst tx) =? a)
  && (is_match_request (snd tx) || is_match_callback (snd tx)).

(** The block time of the last ledger write of a run that went through,
    [t0] when there is none. *)
Fixpoint last_write_time (txs : list (Env * Call))
    (rs : list (result Effects)) (t0 : Z) : Z :=
  match txs, rs with
  | tx :: txs', r :: rs' =>
      last_write_time txs' rs'
        (if is_ledger_write (snd tx) && is_ok r
         then block_timestamp (fst tx) else t0)
  | _, _ => t0
  end.

(** The block time of the last [performMatching] of [a] that went
    through, [t0] when there is none. *)
Fixpoint last_match_time (a : address) (txs : list (Env * Call))
    (rs : list (result Effects)) (t0 : Z) : Z :=
  match txs, rs with
  | tx :: txs', r :: rs' =>
      last_match_time a txs' rs'
        (if is_match_callback (snd tx) && (msg_sender (fst tx) =? a)
            && is_ok r
         then block_timestamp (fst tx) else t0)
  | _, _ => t0
  end.

(** Every id in use carries a positive stamp. *)
Definition stamped (st : State) : Prop :=
  forall i, 1 <= i <= ruleCount st -> 0 < timestamp (rule_at st i).

(** A positive [lastUpdateTimestamp] is the stamp of some rule in use. *)
Definition fresh_stamp (st : State) : Prop :=
  0 < lastUpdateTimestamp st ->
  exists i, 1 <= i <= ruleCount st
            /\ timestamp (rule_at st i) = lastUpdateTimestamp st.

(** Every cursor lies between 0 and [T]. *)
Definition cursors_bounded (T : Z) (st : State) : Prop :=
  forall a, 0 <= sync_of st a <= T.

End Derived.

(** * Properties *)

(** Case analysis on the binds of a call that went through. *)
Ltac bind_inv H :=
  repeat match type of H with
  | bind ?c _ = Ok _ =>
      let E := fresh "E" in
      destruct c eqn:E; simpl in H; [|discriminate H]
  | (let '(_, _) := ?p in _) = Ok _ => destruct p; simpl in H
  | match ?p with (_, _) => _ end = Ok _ => destruct p; simpl in H
  end.


(** ** Basic facts about the result monad and the storage writes *)

Lemma require_true e : require true e = Ok tt.
Proof. reflexivity. Qed.

Lemma require_false e : require false e = Revert e.
Proof. reflexivity. Qed.

Section Facts.
Context {FHE : FHELib}.

Lemma match_of_set_match a m st : match_of (set_match a m st) a = m.
Proof. unfold match_of, set_match; simpl. by rewrite lookup_insert_eq. Qed.

Lemma match_of_set_match_ne a b m st :
  a <> b -> match_of (set_match a m st) b = match_of st b.
Proof.
  intros Hne. unfold match_of, set_match; simpl.
  by rewrite lookup_insert_ne.
Qed.

Lemma match_of_set_sync a b t st : match_of (set_sync a t st) b = match_of st b.
Proof. reflexivity. Qed.

Lemma sync_of_set_sync a t st : sync_of (set_sync a t st) a = t.
Proof. unfold sync_of, set_sync; simpl. by rewrite lookup_insert_eq. Qed.

Lemma sync_of_set_sync_ne a b t st :
  a <> b -> sync_of (set_sync a t st) b = sync_of st b.
Proof.
  intros Hne. unfold sync_of, set_sync; simpl.
  by rewrite lookup_insert_ne.
Qed.

Lemma rule_at_set_rule i r st : rule_at (set_rule i r st) i = r.
Proof. unfold rule_at, set_rule; simpl. by rewrite lookup_insert_eq. Qed.

Lemma rule_at_set_rule_ne i j r st :
  i <> j -> rule_at (set_rule i r st) j = rule_at st j.
Proof.
  intros Hne. unfold rule_at, set_rule; simpl.
  by rewrite lookup_insert_ne.
Qed.

Lemma performMatching_ok env rid data proof w score blk :
  checkSignatures (backend w) rid data proof = true ->
  abi_decode_uint32_bool data = Ok (score, blk) ->
  performMatching env rid data proof w =
    Ok (with_storage (matched env score blk (storage w)) w,
        mkEffects VUnit [MatchProcessed (msg_sender env)] []).
Proof.
  intros Hsig Hdec. unfold performMatching.
  rewrite Hsig, require_true; simpl. by rewrite Hdec.
Qed.

Lemma performMatching_bad_proof env rid data proof w :
  checkSignatures (backend w) rid data proof = false ->
  performMatching env rid data proof w = Revert InvalidProof.
Proof. intros Hsig. unfold performMatching. by rewrite Hsig. Qed.

Lemma decryptDecision_bad_proof env rid data proof w :
  checkSignatures (backend w) rid data proof = false ->
  decryptDecision env rid data proof w = Revert InvalidProof.
Proof. intros Hsig. unfold decryptDecision. by rewrite Hsig. Qed.

Lemma performMatching_inv env rid data proof w w' eff :
  performMatching env rid data proof w = Ok (w', eff) ->
  exists score blk,
    w' = with_storage (matched env score blk (storage w)) w.
Proof.
  unfold performMatching. intros H.
  destruct (checkSignatures _ _ _ _); simpl in H; [|discriminate].
  destruct (abi_decode_uint32_bool data) as [[score blk]|e]; simpl in H;
    [|discriminate].
  injection H as <- <-. by eexists _, _.
Qed.

(** [decryptDecision] never yields a world other than the one it got. *)
Lemma decryptDecision_world env rid data proof w w' eff :
  decryptDecision env rid data proof w = Ok (w', eff) ->
  w' = w /\ eff = mkEffects VUnit [] [].
Proof.
  unfold decryptDecision.
  destruct (checkSignatures _ _ _ _); simpl; [|discriminate].
  destruct (abi_decode_bool data); simpl; [|discriminate].
  by intros [= <- <-].
Qed.

End Facts.

(** ** Callbacks with a failing proof *)

(** C3. A call of [performMatching] or [decryptDecision] whose proof
    [FHE.checkSignatures] does not accept reverts with [InvalidProof]
    and commits nothing: the world after the transaction is the world
    before it, so the caller's [matchResults] entry and sync timestamp
    are as they were, whatever the payload decodes to. *)
Theorem invalid_proof_rejected `{FHE : FHELib}
    (env : Env) (w : World) (requestId : Z) (data proof : bytes) :
  checkSignatures (backend w) requestId data proof = false ->
  step w (env, PerformMatching requestId data proof)
    = (w, Revert InvalidProof)
  /\ step w (env, DecryptDecision requestId data proof)
    = (w, Revert InvalidProof)
  /\ match_of (storage (fst (step w (env, PerformMatching requestId data proof))))
              (msg_sender env)
     = match_of (storage w) (msg_sender env)
  /\ sync_of (storage (fst (step w (env, PerformMatching requestId data proof))))
             (msg_sender env)
     = sync_of (storage w) (msg_sender env).
Proof.
  intros Hsig.
  assert (Hpm : step w (env, PerformMatching requestId data proof)
                = (w, Revert InvalidProof)).
  { unfold step; simpl. by rewrite performMatching_bad_proof. }
  assert (Hdd : step w (env, DecryptDecision requestId data proof)
                = (w, Revert InvalidProof)).
  { unfold step; simpl. by rewrite decryptDecision_bad_proof. }
  rewrite Hpm. repeat split; done.
Qed.

(** A forged callback against a contract with one request in flight:
    the payload decodes to (95, true) but the proof does not repeat it. *)
Lemma invalid_proof_rejected_witness :
  let w := fst (run (deploy (0 : Z)) [tx 7 10 (RequestUrlMatching 11 22)]) in
  step w (tx 7 20 (PerformMatching 0 (encode_score_flag x5f x01) []))
    = (w, Revert InvalidProof).
Proof.
  intros w.
  apply (invalid_proof_rejected (mkEnv 7 20) w 0
           (encode_score_flag x5f x01) []).
  reflexivity.
Defined.

(** ** The decryption callback *)

(** C9. A [decryptDecision] call whose proof verifies changes nothing:
    the committed world is the old one, a successful call returns no
    value, logs no event and makes no request, so the decoded decision
    is dropped and every later run proceeds as if the call had not been
    made. *)
Theorem decryptDecision_frame `{FHE : FHELib}
    (env : Env) (w : World) (requestId : Z) (cleartexts proof : bytes) :
  checkSignatures (backend w) requestId cleartexts proof = true ->
  fst (step w (env, DecryptDecision requestId cleartexts proof)) = w
  /\ (forall b, abi_decode_bool cleartexts = Ok b ->
        step w (env, DecryptDecision requestId cleartexts proof)
          = (w, Ok (mkEffects VUnit [] [])))
  /\ (forall txs,
        run (fst (step w (env, DecryptDecision requestId cleartexts proof)))
            txs
          = run w txs).
Proof.
  intros Hsig.
  assert (Hw : fst (step w (env, DecryptDecision requestId cleartexts proof))
               = w).
  { unfold step; simpl.
    destruct (decryptDecision env requestId cleartexts proof w)
      as [[w' eff]|e] eqn:E; [|done].
    by apply decryptDecision_world in E as [-> _]. }
  split; [done|]. split.
  - intros b Hb. unfold step; simpl. unfold decryptDecision.
    by rewrite Hsig, require_true; simpl; rewrite Hb.
  - intros txs. by rewrite Hw.
Qed.

(** A genuine decryption answer for request 2 of a run in which client 7
    was matched and asked for its decision. *)
Lemma decryptDecision_frame_witness :
  let w := fst (run (deploy (0 : Z))
                  [tx 7 10 (RequestUrlMatching 11 22);
                   tx 7 20 (PerformMatching 0 (encode_score_flag x5f x01)
                                            (encode_score_flag x5f x01));
                   tx 7 30 RequestDecisionDecryption]) in
  fst (step w (tx 7 40 (DecryptDecision 1 (word_of_byte x01)
                                        (word_of_byte x01)))) = w
  /\ step w (tx 7 40 (DecryptDecision 1 (word_of_byte x01)
                                      (word_of_byte x01)))
     = (w, Ok (mkEffects VUnit [] [])).
Proof.
  intros w.
  destruct (decryptDecision_frame (mkEnv 7 40) w 1 (word_of_byte x01)
              (word_of_byte x01)) as (H1 & H2 & _); [reflexivity|].
  split; [exact H1|]. apply (H2 true). reflexivity.
Defined.

(** ** Requesting the decryption of a decision *)

(** C6, as the code has it.  [requestDecisionDecryption] reverts with
    [NotProcessed] unless the caller's match result is processed; when
    it is, the call goes through and hands the library the single
    ciphertext [encryptedShouldBlock] of that result.  The callback
    files its result under its own sender: right after a successful
    [performMatching] sent by the caller's address that ciphertext is
    the one the callback stored, whereas a [performMatching] sent by
    any other address leaves the caller's match result as it was, so a
    caller that was unprocessed still gets [NotProcessed]. *)
Theorem requestDecisionDecryption_gate `{FHE : FHELib}
    (env : Env) (w : World) :
  (isProcessed (match_of (storage w) (msg_sender env)) = false ->
   step w (env, RequestDecisionDecryption) = (w, Revert NotProcessed))
  /\ (isProcessed (match_of (storage w) (msg_sender env)) = true ->
      let target :=
        [ebool_toBytes32
           (encryptedShouldBlock (match_of (storage w) (msg_sender env)))] in
      let r := requestDecryption (backend w) target decryptDecision_selector in
      step w (env, RequestDecisionDecryption)
        = (mkWorld (storage w) (snd r),
           Ok (mkEffects VUnit []
                 [DecryptionRequest target decryptDecision_selector (fst r)])))
  /\ (forall env0 requestId results proof score blk,
        msg_sender env0 = msg_sender env ->
        checkSignatures (backend w) requestId results proof = true ->
        abi_decode_uint32_bool results = Ok (score, blk) ->
        let w1 := fst (step w (env0, PerformMatching requestId results proof)) in
        let target := [ebool_toBytes32 (asEbool blk)] in
        let r := requestDecryption (backend w1) target
                   decryptDecision_selector in
        step w1 (env, RequestDecisionDecryption)
          = (mkWorld (storage w1) (snd r),
             Ok (mkEffects VUnit []
                   [DecryptionRequest target decryptDecision_selector
                                      (fst r)])))
  /\ (forall env0 requestId results proof,
        msg_sender env0 <> msg_sender env ->
        let w1 := fst (step w (env0, PerformMatching requestId results proof)) in
        match_of (storage w1) (msg_sender env)
          = match_of (storage w) (msg_sender env)
        /\ (isProcessed (match_of (storage w) (msg_sender env)) = false ->
            step w1 (env, RequestDecisionDecryption)
              = (w1, Revert NotProcessed))).
Proof.
  assert (Hgo : forall (e : Env) (v : World),
    isProcessed (match_of (storage v) (msg_sender e)) = true ->
    let target :=
      [ebool_toBytes32
         (encryptedShouldBlock (match_of (storage v) (msg_sender e)))] in
    let r := requestDecryption (backend v) target decryptDecision_selector in
    step v (e, RequestDecisionDecryption)
      = (mkWorld (storage v) (snd r),
         Ok (mkEffects VUnit []
               [DecryptionRequest target decryptDecision_selector (fst r)]))).
  { intros e v Hp. unfold step; simpl. unfold requestDecisionDecryption.
    rewrite Hp, require_true; simpl.
    by destruct (requestDecryption _ _ _). }
  assert (Hno : forall (v : World),
    isProcessed (match_of (storage v) (msg_sender env)) = false ->
    step v (env, RequestDecisionDecryption) = (v, Revert NotProcessed)).
  { intros v Hp. unfold step; simpl. unfold requestDecisionDecryption.
    by rewrite Hp. }
  split; [|split; [|split]].
  - apply Hno.
  - apply Hgo.
  - intros env0 rid results proof score blk Hs Hsig Hdec w1 target r.
    assert (Hw1 : w1 = with_storage (matched env0 score blk (storage w)) w).
    { unfold w1, step; simpl.
      by rewrite (performMatching_ok _ _ _ _ _ _ _ Hsig Hdec). }
    assert (Hm : match_of (storage w1) (msg_sender env)
                 = mkMatch (asEuint32 score) (asEbool blk) true).
    { rewrite Hw1; simpl. unfold matched.
      by rewrite match_of_set_sync, <- Hs, match_of_set_match. }
    pose proof (Hgo env w1) as Hstep. rewrite Hm in Hstep.
    by apply Hstep.
  - intros env0 rid results proof Hne w1.
    assert (Hm : match_of (storage w1) (msg_sender env)
                 = match_of (storage w) (msg_sender env)).
    { unfold w1, step; simpl.
      destruct (performMatching env0 rid results proof w)
        as [[w' eff]|e] eqn:E; [|done].
      apply performMatching_inv in E as (score & blk & ->).
      simpl. unfold matched.
      by rewrite match_of_set_sync, match_of_set_match_ne. }
    split; [done|]. intros Hp. apply Hno. by rewrite Hm.
Qed.

(** Client 7 asks before its match callback, after a callback it sends
    itself, and after the same callback sent by address 99. *)
Lemma requestDecisionDecryption_gate_witness :
  let w := fst (run (deploy (0 : Z)) [tx 7 10 (RequestUrlMatching 11 22)]) in
  let results := encode_score_flag x5f x01 in
  let w1 := fst (step w (tx 7 20 (PerformMatching 0 results results))) in
  let w1' := fst (step w (tx 99 20 (PerformMatching 0 results results))) in
  step w (tx 7 15 RequestDecisionDecryption) = (w, Revert NotProcessed)
  /\ step w1 (tx 7 30 RequestDecisionDecryption)
     = (mkWorld (storage w1) 2,
        Ok (mkEffects VUnit []
              [DecryptionRequest [1] decryptDecision_selector 1]))
  /\ step w1' (tx 7 30 RequestDecisionDecryption)
     = (w1', Revert NotProcessed).
Proof.
  intros w results w1 w1'.
  destruct (requestDecisionDecryption_gate (mkEnv 7 15) w) as (H1 & _ & _).
  destruct (requestDecisionDecryption_gate (mkEnv 7 30) w)
    as (_ & _ & H3 & H4).
  split; [|split].
  - apply H1. reflexivity.
  - apply (H3 (mkEnv 7 20) 0 results results 95 true); reflexivity.
  - apply (H4 (mkEnv 99 20) 0 results results); [discriminate|reflexivity].
Defined.

(** C6, as the claim states it, fails: client 7 requests a match, the
    callback for its request 0 is delivered with a valid proof by
    address 99 and completes, and the client's
    [requestDecisionDecryption] still reverts with [NotProcessed]. *)
Lemma callback_by_backend_leaves_client_unprocessed :
  let results := encode_score_flag x5f x01 in
  snd (run (deploy (0 : Z))
         [tx 7 10 (RequestUrlMatching 11 22);
          tx 99 20 (PerformMatching 0 results results);
          tx 7 30 RequestDecisionDecryption])
  = [Ok (mkEffects VUnit [MatchingRequested 7]
           [ComputationRequest [11; 22] performMatching_selector 0]);
     Ok (mkEffects VUnit [MatchProcessed 99] []);
     Revert NotProcessed].
Proof. reflexivity. Qed.

(** ** Callbacks and request ids *)

(** C1, as the code has it.  The storage has no field for a request id:
    a callback is accepted as soon as [FHE.checkSignatures] accepts its
    request id, payload and proof and the payload decodes, as a score
    and a flag for [performMatching], as a flag for [decryptDecision].
    An accepted [performMatching] overwrites the caller's match result
    and sync timestamp, and that result is what
    [getEncryptedMatchResult] then returns to the caller; an accepted
    [decryptDecision] changes nothing.  A callback is rejected only for
    a proof that does not verify or a payload that does not decode,
    never as stale. *)
Theorem callback_accepted_on_valid_proof `{FHE : FHELib}
    (env : Env) (w : World) (requestId : Z) (data proof : bytes) :
  (forall score blk,
      checkSignatures (backend w) requestId data proof = true ->
      abi_decode_uint32_bool data = Ok (score, blk) ->
      let w1 := with_storage (matched env score blk (storage w)) w in
      step w (env, PerformMatching requestId data proof)
        = (w1, Ok (mkEffects VUnit [MatchProcessed (msg_sender env)] []))
      /\ (forall now,
            step w1 (mkEnv (msg_sender env) now, GetEncryptedMatchResult)
              = (w1, Ok (mkEffects (VEbool (asEbool blk)) [] []))))
  /\ (forall b,
        checkSignatures (backend w) requestId data proof = true ->
        abi_decode_bool data = Ok b ->
        step w (env, DecryptDecision requestId data proof)
          = (w, Ok (mkEffects VUnit [] [])))
  /\ (forall e,
        snd (step w (env, PerformMatching requestId data proof)) = Revert e
        \/ snd (step w (env, DecryptDecision requestId data proof)) = Revert e ->
        e = InvalidProof \/ e = DecodeError).
Proof.
  split; [|split].
  - intros score blk Hsig Hdec w1. split.
    + unfold step; simpl.
      by rewrite (performMatching_ok _ _ _ _ _ _ _ Hsig Hdec).
    + intros now. unfold step; simpl. unfold getEncryptedMatchResult; simpl.
      unfold matched.
      by rewrite match_of_set_sync, match_of_set_match.
  - intros b Hsig Hb. unfold step; simpl. unfold decryptDecision.
    by rewrite Hsig, require_true; simpl; rewrite Hb.
  - intros e [H|H]; unfold step in H; simpl in H.
    + unfold performMatching in H.
      destruct (checkSignatures _ _ _ _); simpl in H;
        [|injection H as <-; by left].
      unfold abi_decode_uint32_bool in H.
      destruct (64 <=? _); simpl in H; [|injection H as <-; by right].
      destruct (abi_word 0 data <=? _); simpl in H;
        [|injection H as <-; by right].
      destruct (abi_word 1 data <=? _); simpl in H;
        [discriminate|injection H as <-; by right].
    + unfold decryptDecision in H.
      destruct (checkSignatures _ _ _ _); simpl in H;
        [|injection H as <-; by left].
      unfold abi_decode_bool in H.
      destruct (32 <=? _); simpl in H; [|injection H as <-; by right].
      destruct (abi_word 0 data <=? _); simpl in H;
        [discriminate|injection H as <-; by right].
Qed.

(** After requests 0 and 1 of client 7: the late match callback for
    request 0, and a decryption callback with a one-word payload for
    which no decryption was ever requested. *)
Lemma callback_accepted_on_valid_proof_witness :
  let w := fst (run (deploy (0 : Z))
                  [tx 7 10 (RequestUrlMatching 11 22);
                   tx 7 20 (RequestUrlMatching 33 44)]) in
  let results := encode_score_flag x5f x01 in
  let w1 := with_storage (matched (mkEnv 7 30) 95 true (storage w)) w in
  step w (tx 7 30 (PerformMatching 0 results results))
    = (w1, Ok (mkEffects VUnit [MatchProcessed 7] []))
  /\ step w (tx 7 30 (DecryptDecision 1 (word_of_byte x01)
                                      (word_of_byte x01)))
     = (w, Ok (mkEffects VUnit [] [])).
Proof.
  intros w results w1. split.
  - destruct (callback_accepted_on_valid_proof (mkEnv 7 30) w 0
                results results) as (H & _ & _).
    apply (H 95 true); reflexivity.
  - destruct (callback_accepted_on_valid_proof (mkEnv 7 30) w 1
                (word_of_byte x01) (word_of_byte x01)) as (_ & H & _).
    apply (H true); reflexivity.
Defined.

(** C1, as the claim states it, fails: client 7 makes request 0, then
    request 1; the late callback for request 0 is accepted, not
    rejected, and its result (block) is what the client reads back. *)
Lemma late_callback_accepted :
  let results := encode_score_flag x5f x01 in
  snd (run (deploy (0 : Z))
         [tx 7 10 (RequestUrlMatching 11 22);
          tx 7 20 (RequestUrlMatching 33 44);
          tx 7 30 (PerformMatching 0 results results);
          tx 7 40 GetEncryptedMatchResult])
  = [Ok (mkEffects VUnit [MatchingRequested 7]
           [ComputationRequest [11; 22] performMatching_selector 0]);
     Ok (mkEffects VUnit [MatchingRequested 7]
           [ComputationRequest [33; 44] performMatching_selector 1]);
     Ok (mkEffects VUnit [MatchProcessed 7] []);
     Ok (mkEffects (VEbool 1) [] [])].
Proof. reflexivity. Qed.

(** ** The maintainer guard *)

(** C2, on the code: [onlyMaintainer] runs its body for every caller,
    so the outcome of a ledger write does not depend on who sends it;
    an arbitrary address adds a rule to a fresh ledger and then
    rewrites it. *)
Theorem ledger_writes_unguarded :
  (forall (FHE : FHELib) (a b : address) (now : Z) (c : Call) (w : World),
      match c with
      | AddFilteringRule _ _ _ | UpdateFilteringRule _ _ _ _ =>
          exec (mkEnv a now) c w = exec (mkEnv b now) c w
      | _ => True
      end)
  /\ run (deploy (0 : Z))
         [tx 666 100 (AddFilteringRule 1 2 3);
          tx 666 200 (UpdateFilteringRule 1 4 5 6)]
     = (mkWorld (mkState 1 {[ 1 := mkRule 4 5 6 200 ]} ∅ 200 ∅) 0,
        [Ok (mkEffects VUnit [RuleAdded 1 100] []);
         Ok (mkEffects VUnit [RuleUpdated 1] [])]).
Proof.
  split.
  - intros FHE a b now c w. destruct c; done.
  - vm_compute. reflexivity.
Qed.

(** ** Loops and arrays *)

Lemma checked_add_ok a b : a + b <= MAX_UINT256 -> checked_add a b = Ok (a + b).
Proof.
  intros H. unfold checked_add.
  destruct (Z.leb_spec (a + b) MAX_UINT256); [done|lia].
Qed.

Lemma checked_mul_ok a b : a * b <= MAX_UINT256 -> checked_mul a b = Ok (a * b).
Proof.
  intros H. unfold checked_mul.
  destruct (Z.leb_spec (a * b) MAX_UINT256); [done|lia].
Qed.

Lemma new_array_ok n :
  n <= MAX_UINT64 -> new_array n = Ok (replicate (Z.to_nat n) 0).
Proof.
  intros H. unfold new_array.
  destruct (Z.leb_spec n MAX_UINT64); [done|lia].
Qed.

Lemma MAX_UINT64_lt_MAX_UINT256 : MAX_UINT64 < MAX_UINT256.
Proof. reflexivity. Qed.

Lemma for_loop_foldM {S : Type} (body : Z -> S -> result S) n : forall i s,
  i + Z.of_nat n <= MAX_UINT256 ->
  for_loop n i body s = foldM body (seqZ i (Z.of_nat n)) s.
Proof.
  induction n as [|n IH]; intros i s Hi.
  - reflexivity.
  - rewrite seqZ_cons by lia. simpl for_loop. simpl foldM.
    destruct (body i s) as [s'|e]; simpl; [|done].
    rewrite checked_add_ok by lia. simpl.
    rewrite IH by lia. do 2 f_equal; lia.
Qed.

Lemma for_1_to_foldM {S : Type} (body : Z -> S -> result S) hi s :
  0 <= hi < MAX_UINT256 ->
  for_1_to hi body s = foldM body (seqZ 1 hi) s.
Proof.
  intros H. unfold for_1_to. rewrite for_loop_foldM by lia.
  by rewrite Z2Nat.id by lia.
Qed.

Lemma array_set_at (pre : list Z) x rest i v :
  i = Z.of_nat (length pre) ->
  array_set (pre ++ x :: rest) i v = Ok (pre ++ v :: rest).
Proof.
  intros ->. unfold array_set. rewrite length_app; simpl.
  destruct (Z.ltb_spec (Z.of_nat (length pre))
              (Z.of_nat (length pre + S (length rest)))); [|lia].
  rewrite Nat2Z.id.
  replace (length pre) with (length pre + 0)%nat at 1 by lia.
  by rewrite insert_app_r.
Qed.

Section LoopFacts.
Context {FHE : FHELib}.

Lemma copy_rules_fold st l : forall pre m,
  Z.of_nat (length pre) + 3 * Z.of_nat (length l) <= MAX_UINT256 ->
  foldM (copy_rule st) l
        (Z.of_nat (length pre), pre ++ replicate (3 * length l + m) 0)
  = Ok (Z.of_nat (length pre) + 3 * Z.of_nat (length l),
        pre ++ flat_map (rule_words st) l ++ replicate m 0).
Proof.
  induction l as [|i l IH]; intros pre m Hb.
  - simpl. do 2 f_equal. lia.
  - simpl length in *.
    replace (3 * S (length l) + m)%nat
      with (S (S (S (3 * length l + m)))) by lia.
    simpl replicate. simpl foldM. unfold copy_rule at 1.
    rewrite (array_set_at pre) by done. simpl.
    rewrite checked_add_ok by lia. simpl.
    rewrite (cons_middle _ pre), app_assoc.
    rewrite (array_set_at (pre ++ [_])) by (rewrite length_app; simpl; lia).
    simpl. rewrite checked_add_ok by lia. simpl.
    rewrite (cons_middle _ (pre ++ [_])), app_assoc.
    rewrite (array_set_at ((pre ++ [_]) ++ [_]))
      by (rewrite !length_app; simpl; lia).
    simpl. rewrite checked_add_ok by lia. simpl.
    rewrite (cons_middle _ ((pre ++ [_]) ++ [_])), app_assoc.
    match goal with
    | |- foldM _ _ (?k, ?p ++ _) = _ =>
        replace k with (Z.of_nat (length p))
          by (rewrite !length_app; simpl; lia)
    end.
    rewrite IH by (rewrite !length_app; simpl; lia).
    rewrite !length_app; simpl.
    f_equal. f_equal; [lia|].
    unfold rule_words at 2. by rewrite <- !app_assoc.
Qed.

End LoopFacts.

(** ** The payload of a match request *)

Lemma length_match_payload `{FHE : FHELib} st d p :
  0 <= ruleCount st ->
  Z.of_nat (length (match_payload st d p)) = ruleCount st * 3 + 2.
Proof.
  intros H. unfold match_payload, rule_ids. simpl length.
  assert (Hf : forall l, length (flat_map (rule_words st) l)
                         = (3 * length l)%nat).
  { induction l as [|i l IH]; simpl; [done|]. rewrite IH. lia. }
  rewrite Hf, length_seqZ. lia.
Qed.

(** C8. With [ruleCount] rules stored (and [ruleCount * 3 + 2] at most
    [2^64 - 1], the largest array the allocation accepts),
    [requestUrlMatching] goes
    through and sends the library exactly one computation request whose
    ciphertexts are the encrypted domain, the encrypted path and then
    the domain pattern, path pattern and rule type of rules
    1, 2, ..., [ruleCount] in that order; its length is
    [ruleCount * 3 + 2]. *)
Theorem requestUrlMatching_payload `{FHE : FHELib}
    (env : Env) (encryptedDomain encryptedPath : euint32) (w : World) :
  0 <= ruleCount (storage w) ->
  ruleCount (storage w) * 3 + 2 <= MAX_UINT64 ->
  let payload := match_payload (storage w) encryptedDomain encryptedPath in
  let r := requestComputation (backend w) payload performMatching_selector in
  step w (env, RequestUrlMatching encryptedDomain encryptedPath)
    = (mkWorld (set_match (msg_sender env)
                  (mkMatch (asEuint32 0) (asEbool false) false) (storage w))
               (snd r),
       Ok (mkEffects VUnit [MatchingRequested (msg_sender env)]
             [ComputationRequest payload performMatching_selector (fst r)]))
  /\ Z.of_nat (length payload) = ruleCount (storage w) * 3 + 2.
Proof.
  intros Hn Hb payload r. split; [|by apply length_match_payload].
  unfold step; simpl. unfold requestUrlMatching.
  set (st := storage w) in *. set (n := ruleCount st) in *.
  pose proof MAX_UINT64_lt_MAX_UINT256 as H64.
  rewrite checked_mul_ok by lia. simpl.
  rewrite checked_add_ok by lia. simpl.
  rewrite new_array_ok by done. simpl.
  replace (Z.to_nat (n * 3 + 2))
    with (S (S (3 * length (seqZ 1 n) + 0)))
    by (rewrite length_seqZ; lia).
  simpl replicate.
  match goal with
  | |- context [array_set (?x :: ?rest) 0 ?v] =>
      change (array_set (x :: rest) 0 v) with (array_set ([] ++ x :: rest) 0 v)
  end.
  rewrite array_set_at by done. simpl.
  match goal with
  | |- context [array_set (?y :: ?x :: ?rest) 1 ?v] =>
      change (array_set (y :: x :: rest) 1 v)
        with (array_set ([y] ++ x :: rest) 1 v)
  end.
  rewrite array_set_at by done. simpl.
  rewrite for_1_to_foldM by lia.
  pose proof (copy_rules_fold st (seqZ 1 n)
                [euint32_toBytes32 encryptedDomain;
                 euint32_toBytes32 encryptedPath] 0%nat) as Hloop.
  simpl length in Hloop. simpl app in Hloop.
  change (Z.of_nat 2) with 2 in Hloop.
  rewrite Hloop by (rewrite length_seqZ; lia). simpl.
  rewrite app_nil_r.
  fold (rule_ids st).
  change (euint32_toBytes32 encryptedDomain
          :: euint32_toBytes32 encryptedPath
          :: flat_map (rule_words st) (rule_ids st)) with payload.
  subst r. by destruct (requestComputation _ _ _).
Qed.

(** Client 7 asks for a match against a ledger of two rules. *)
Lemma requestUrlMatching_payload_witness :
  let w := fst (run (deploy (0 : Z))
                  [tx 1 100 (AddFilteringRule 31 32 33);
                   tx 1 200 (AddFilteringRule 41 42 43)]) in
  snd (step w (tx 7 300 (RequestUrlMatching 11 22)))
    = Ok (mkEffects VUnit [MatchingRequested 7]
            [ComputationRequest [11; 22; 31; 32; 33; 41; 42; 43]
                                performMatching_selector 0]).
Proof.
  intros w.
  destruct (requestUrlMatching_payload (FHE := SimpleFHE)
              (mkEnv 7 300) 11 22 w) as [H _].
  - vm_compute. discriminate.
  - vm_compute. discriminate.
  - unfold tx. rewrite H. reflexivity.
Defined.

(** ** The delta of a client *)

Section DeltaFacts.
Context {FHE : FHELib}.

Lemma count_fold st a l : forall c,
  c + Z.of_nat (length l) <= MAX_UINT256 ->
  foldM (count_rule st a) l c
  = Ok (c + Z.of_nat (length (List.filter (changed st a) l))).
Proof.
  induction l as [|i l IH]; intros c Hc; simpl.
  - f_equal. lia.
  - simpl length in Hc. unfold count_rule at 1.
    destruct (changed st a i); simpl.
    + rewrite checked_add_ok by lia. simpl.
      rewrite IH by lia. f_equal. lia.
    + by rewrite IH by lia.
Qed.

Lemma fill_fold st a l : forall (pd pp pt ps : list Z) m,
  length pp = length pd -> length pt = length pd -> length ps = length pd ->
  Z.of_nat (length pd) + Z.of_nat (length l) <= MAX_UINT256 ->
  let fl := List.filter (changed st a) l in
  foldM (fill_rule st a) l
    (Z.of_nat (length pd),
     pd ++ replicate (length fl + m) 0, pp ++ replicate (length fl + m) 0,
     pt ++ replicate (length fl + m) 0, ps ++ replicate (length fl + m) 0)
  = Ok (Z.of_nat (length pd) + Z.of_nat (length fl),
        pd ++ map (fun i => euint32_toBytes32
                              (encryptedDomainPattern (rule_at st i))) fl
           ++ replicate m 0,
        pp ++ map (fun i => euint32_toBytes32
                              (encryptedPathPattern (rule_at st i))) fl
           ++ replicate m 0,
        pt ++ map (fun i => euint32_toBytes32
                              (encryptedRuleType (rule_at st i))) fl
           ++ replicate m 0,
        ps ++ map (fun i => timestamp (rule_at st i)) fl ++ replicate m 0).
Proof.
  induction l as [|i l IH]; intros pd pp pt ps m Hp Ht Hs Hb; simpl.
  - do 5 f_equal. lia.
  - simpl length in Hb. unfold fill_rule at 1.
    destruct (changed st a i) eqn:Hc; simpl.
    + rewrite (array_set_at pd) by done. simpl.
      rewrite (array_set_at pp) by (by rewrite Hp). simpl.
      rewrite (array_set_at pt) by (by rewrite Ht). simpl.
      rewrite (array_set_at ps) by (by rewrite Hs). simpl.
      rewrite checked_add_ok by lia. simpl.
      rewrite (cons_middle _ pd), (cons_middle _ pp),
              (cons_middle _ pt), (cons_middle _ ps), !app_assoc.
      replace (Z.of_nat (length pd) + 1)
        with (Z.of_nat (length (pd ++ [euint32_toBytes32
                (encryptedDomainPattern (rule_at st i))])))
        by (rewrite length_app; simpl; lia).
      rewrite IH by (rewrite ?length_app; simpl; lia).
      rewrite length_app; simpl.
      rewrite <- !app_assoc. simpl.
      do 5 f_equal. lia.
    + by rewrite IH by lia.
Qed.

Lemma getRuleUpdates_view_delta env st :
  0 <= ruleCount st < MAX_UINT256 ->
  Z.of_nat (length (changed_ids st (msg_sender env))) <= MAX_UINT64 ->
  getRuleUpdates_view env st = Ok (rule_updates st (msg_sender env)).
Proof.
  intros Hn Halloc. unfold getRuleUpdates_view.
  rewrite !for_1_to_foldM by done.
  rewrite count_fold by (rewrite length_seqZ; lia). simpl.
  fold (rule_ids st). fold (changed_ids st (msg_sender env)).
  rewrite Z.add_0_l, new_array_ok by done. simpl.
  rewrite Nat2Z.id.
  rewrite for_1_to_foldM by done. fold (rule_ids st).
  pose proof (fill_fold st (msg_sender env) (rule_ids st) [] [] [] [] 0%nat)
    as Hloop.
  simpl in Hloop. fold (changed_ids st (msg_sender env)) in Hloop.
  rewrite Nat.add_0_r in Hloop. change (Z.of_nat 0) with 0 in Hloop.
  rewrite Hloop; [| done | done | done |].
  - simpl. by rewrite !app_nil_r.
  - unfold rule_ids. rewrite length_seqZ. lia.
Qed.

Lemma changed_ids_spec st a i :
  i ∈ changed_ids st a
  <-> 1 <= i <= ruleCount st /\ sync_of st a < timestamp (rule_at st i).
Proof.
  unfold changed_ids, rule_ids.
  rewrite list_elem_of_In, filter_In, <- list_elem_of_In, elem_of_seqZ.
  unfold changed. rewrite Z.ltb_lt. lia.
Qed.

Lemma filter_seqZ_sorted (f : Z -> bool) n : forall m,
  StronglySorted Z.lt (List.filter f (seqZ m (Z.of_nat n))).
Proof.
  induction n as [|n IH]; intros m.
  - constructor.
  - rewrite seqZ_cons by lia. simpl.
    replace (Z.pred (Z.of_nat (S n))) with (Z.of_nat n) by lia.
    destruct (f m); [|apply IH].
    constructor; [apply IH|].
    apply Forall_forall. intros x Hx.
    apply list_elem_of_In, filter_In in Hx as [Hx _].
    apply list_elem_of_In, elem_of_seqZ in Hx. lia.
Qed.

Lemma changed_ids_sorted st a : StronglySorted Z.lt (changed_ids st a).
Proof.
  unfold changed_ids, rule_ids.
  destruct (Z.le_gt_cases 0 (ruleCount st)) as [H|H].
  - rewrite <- (Z2Nat.id (ruleCount st)) by done. apply filter_seqZ_sorted.
  - rewrite seqZ_nil by lia. constructor.
Qed.

End DeltaFacts.

(** C4. [getRuleUpdates] (with [ruleCount] below the largest [uint256],
    as its loops need, and at most [2^64 - 1] rules to return, the
    largest array the allocation accepts) returns, field by field,
    exactly the rules whose
    timestamp is strictly greater than the caller's
    [lastSyncTimestamps] entry, which reads as 0 for a caller that has
    none, in ascending id order, and commits the world it was given.
    With three rules stamped 100, 200 and 300 and a cursor of 150 the
    rules returned are 2 and 3, in that order. *)
Theorem getRuleUpdates_delta `{FHE : FHELib} (env : Env) (w : World) :
  0 <= ruleCount (storage w) < MAX_UINT256 ->
  Z.of_nat (length (changed_ids (storage w) (msg_sender env)))
    <= MAX_UINT64 ->
  let a := msg_sender env in
  let st := storage w in
  step w (env, GetRuleUpdates)
    = (w, Ok (mkEffects (VUpdates (rule_updates st a)) [] []))
  /\ (forall i, i ∈ changed_ids st a
                <-> 1 <= i <= ruleCount st
                    /\ sync_of st a < timestamp (rule_at st i))
  /\ StronglySorted Z.lt (changed_ids st a)
  /\ (lastSyncTimestamps st !! a = None -> sync_of st a = 0)
  /\ (ruleCount st = 3 ->
      timestamp (rule_at st 1) = 100 ->
      timestamp (rule_at st 2) = 200 ->
      timestamp (rule_at st 3) = 300 ->
      sync_of st a = 150 ->
      changed_ids st a = [2; 3]
      /\ rule_updates st a
         = (map (fun i => euint32_toBytes32
                            (encryptedDomainPattern (rule_at st i))) [2; 3],
            map (fun i => euint32_toBytes32
                            (encryptedPathPattern (rule_at st i))) [2; 3],
            map (fun i => euint32_toBytes32
                            (encryptedRuleType (rule_at st i))) [2; 3],
            [200; 300])).
Proof.
  intros Hn Halloc a st. split; [|split; [|split; [|split]]].
  - unfold step; simpl. unfold getRuleUpdates.
    by rewrite getRuleUpdates_view_delta.
  - intros i. apply changed_ids_spec.
  - apply changed_ids_sorted.
  - intros Hnone. unfold sync_of. by rewrite Hnone.
  - intros H3 H100 H200 H300 Hsync.
    assert (Hids : changed_ids st a = [2; 3]).
    { unfold changed_ids, rule_ids. rewrite H3.
      change (seqZ 1 3) with [1; 2; 3]. simpl.
      unfold changed. by rewrite Hsync, H100, H200, H300. }
    split; [done|].
    unfold rule_updates. rewrite Hids. simpl. by rewrite H200, H300.
Qed.

(** Rules stamped 100, 200 and 300; client 7 was matched at time 150. *)
Lemma getRuleUpdates_delta_witness :
  let results := encode_score_flag x5f x01 in
  let w := fst (run (deploy (0 : Z))
                  [tx 1 100 (AddFilteringRule 31 32 33);
                   tx 7 120 (RequestUrlMatching 11 22);
                   tx 7 150 (PerformMatching 0 results results);
                   tx 1 200 (AddFilteringRule 41 42 43);
                   tx 1 300 (AddFilteringRule 51 52 53)]) in
  step w (tx 7 400 GetRuleUpdates)
    = (w, Ok (mkEffects (VUpdates ([41; 51], [42; 52], [43; 53], [200; 300]))
                        [] []))
  /\ step w (tx 8 400 GetRuleUpdates)
    = (w, Ok (mkEffects (VUpdates ([31; 41; 51], [32; 42; 52], [33; 43; 53],
                                   [100; 200; 300])) [] []))
  /\ changed_ids (storage w) 7 = [2; 3].
Proof.
  intros results w.
  destruct (getRuleUpdates_delta (FHE := SimpleFHE) (mkEnv 7 400) w)
    as (H7 & _ & _ & _ & Hex); [by vm_compute..|].
  destruct (getRuleUpdates_delta (FHE := SimpleFHE) (mkEnv 8 400) w)
    as (H8 & _); [by vm_compute..|].
  split; [exact H7|]. split; [exact H8|].
  apply Hex; reflexivity.
Defined.

(** ** What each call does to the storage *)

Section StepFacts.
Context {FHE : FHELib}.

Lemma addFilteringRule_inv env d p t w w' eff :
  addFilteringRule env d p t w = Ok (w', eff) ->
  let st := storage w in
  let newId := ruleCount st + 1 in
  newId <= MAX_UINT256
  /\ w' = with_storage
            (set_lastUpdateTimestamp (block_timestamp env)
               (set_rule newId (mkRule d p t (block_timestamp env))
                  (set_ruleCount newId st))) w
  /\ eff = mkEffects VUnit [RuleAdded newId (block_timestamp env)] [].
Proof.
  unfold addFilteringRule, onlyMaintainer, checked_add. intros H.
  destruct (Z.leb_spec (ruleCount (storage w) + 1) MAX_UINT256);
    simpl in H; [|discriminate].
  by injection H as <- <-.
Qed.

Lemma updateFilteringRule_inv env i d p t w w' eff :
  updateFilteringRule env i d p t w = Ok (w', eff) ->
  let st := storage w in
  0 < timestamp (rule_at st i)
  /\ w' = with_storage
            (set_lastUpdateTimestamp (block_timestamp env)
               (set_rule i (mkRule d p t (block_timestamp env)) st)) w
  /\ eff = mkEffects VUnit [RuleUpdated i] [].
Proof.
  unfold updateFilteringRule, onlyMaintainer. intros H.
  destruct (Z.ltb_spec 0 (timestamp (rule_at (storage w) i)));
    simpl in H; [|discriminate].
  injection H as <- <-. split; [done|]. split; [|done].
  rewrite !rule_at_set_rule. simpl.
  unfold with_storage, set_lastUpdateTimestamp, set_rule; simpl.
  by rewrite !insert_insert_eq.
Qed.

(** A call that is not a ledger write leaves the ledger alone, moves no
    cursor but, for [performMatching], the caller's, and announces no
    new rule. *)
Lemma exec_frame env c w w' eff :
  is_ledger_write c = false ->
  exec env c w = Ok (w', eff) ->
  ledger (storage w') = ledger (storage w)
  /\ flat_map added_id (logs eff) = []
  /\ (forall a,
        sync_of (storage w') a = sync_of (storage w) a
        \/ (a = msg_sender env
            /\ sync_of (storage w') a = block_timestamp env)).
Proof.
  intros Hc H. destruct c; simpl in Hc; try discriminate; simpl in H.
  - unfold requestUrlMatching in H. bind_inv H.
    injection H as <- <-. by repeat split; auto.
  - unfold performMatching in H. bind_inv H.
    injection H as <- <-. split; [done|]. split; [done|].
    intros who. simpl.
    destruct (decide (msg_sender env = who)) as [<-|Hne].
    + right. by rewrite sync_of_set_sync.
    + left. by rewrite sync_of_set_sync_ne.
  - unfold getEncryptedMatchResult in H. bind_inv H.
    injection H as <- <-. by repeat split; auto.
  - unfold needsUpdate in H. injection H as <- <-. by repeat split; auto.
  - unfold getRuleUpdates in H. bind_inv H.
    injection H as <- <-. by repeat split; auto.
  - unfold requestDecisionDecryption in H. bind_inv H.
    injection H as <- <-. by repeat split; auto.
  - apply decryptDecision_world in H as [-> ->]. by repeat split; auto.
Qed.

End StepFacts.

(** ** Rule ids along a run *)

Section RunFacts.
Context {FHE : FHELib}.

Lemma run_cons w tx txs :
  run w (tx :: txs)
  = (fst (run (fst (step w tx)) txs),
     snd (step w tx) :: snd (run (fst (step w tx)) txs)).
Proof.
  simpl. destruct (step w tx) as [w1 r]; simpl.
  by destruct (run w1 txs).
Qed.


Lemma step_ok w env c w' eff :
  exec env c w = Ok (w', eff) -> step w (env, c) = (w', Ok eff).
Proof. intros H. unfold step; simpl. by rewrite H. Qed.

Lemma step_revert w env c e :
  exec env c w = Revert e -> step w (env, c) = (w, Revert e).
Proof. intros H. unfold step; simpl. by rewrite H. Qed.

Lemma rule_at_ledger st st' i :
  ledger st' = ledger st -> rule_at st' i = rule_at st i.
Proof. unfold ledger, rule_at. by intros [= _ -> _]. Qed.

Lemma stored_of_stamp st i :
  0 < timestamp (rule_at st i) -> i ∈ dom (filteringRules st).
Proof.
  unfold rule_at. intros H. apply elem_of_dom.
  destruct (filteringRules st !! i); [done|]. simpl in H. lia.
Qed.

Lemma step_ids w tx :
  ledger_dense (storage w) ->
  let w1 := fst (step w tx) in
  let r := snd (step w tx) in
  let k := if is_add (snd tx) && is_ok r then 1 else 0 in
  ruleCount (storage w1) = ruleCount (storage w) + k
  /\ assigned_ids [r] = seqZ (ruleCount (storage w) + 1) k
  /\ ledger_dense (storage w1).
Proof.
  intros [Hpos Hdom]. destruct tx as [env c].
  destruct (exec env c w) as [[w' eff]|e] eqn:E.
  - rewrite (step_ok _ _ _ _ _ E). simpl.
    destruct (is_ledger_write c) eqn:Hw.
    + destruct c; simpl in Hw; try discriminate; simpl in E.
      * apply addFilteringRule_inv in E as (Hmax & -> & ->). simpl.
        split; [done|]. split; [done|]. split; simpl; [lia|].
        rewrite dom_insert_L, Hdom.
        rewrite (seqZ_app 1 (ruleCount (storage w)) 1) by lia.
        rewrite list_to_set_app_L.
        replace (1 + ruleCount (storage w)) with (ruleCount (storage w) + 1)
          by lia.
        change (seqZ (ruleCount (storage w) + 1) 1)
          with [ruleCount (storage w) + 1].
        simpl. rewrite union_empty_r_L. apply (comm_L (∪)).
      * apply updateFilteringRule_inv in E as (Hts & -> & ->). simpl.
        split; [lia|]. split; [done|]. split; simpl; [done|].
        apply stored_of_stamp in Hts.
        rewrite dom_insert_L, <- Hdom.
        apply subseteq_union_1_L. by apply singleton_subseteq_l.
    + destruct (exec_frame _ _ _ _ _ Hw E) as (Hl & Hlogs & _).
      assert (Hadd : is_add c = false) by (by destruct c).
      rewrite Hadd. simpl. unfold ledger in Hl.
      injection Hl as Hrc Hrules _.
      rewrite Hlogs, Hrc. split; [lia|]. split; [done|].
      split; [lia|]. by rewrite Hrules, Hrc.
  - rewrite (step_revert _ _ _ _ E). simpl.
    rewrite andb_false_r. split; [lia|]. by split.
Qed.

Lemma assigned_ids_cons r rs :
  assigned_ids (r :: rs) = assigned_ids [r] ++ assigned_ids rs.
Proof. unfold assigned_ids. simpl. by rewrite app_nil_r. Qed.

Lemma run_ids txs : forall w,
  ledger_dense (storage w) ->
  let w' := fst (run w txs) in
  let rs := snd (run w txs) in
  let N := Z.of_nat (successful_adds txs rs) in
  ruleCount (storage w') = ruleCount (storage w) + N
  /\ assigned_ids rs = seqZ (ruleCount (storage w) + 1) N
  /\ ledger_dense (storage w').
Proof.
  induction txs as [|tx txs IH]; intros w Hd.
  - simpl. split; [lia|]. by split.
  - rewrite run_cons. simpl fst. simpl snd.
    destruct (step_ids w tx Hd) as (Hrc & Hids & Hd1).
    destruct (IH _ Hd1) as (Hrc' & Hids' & Hd').
    set (k := if is_add (snd tx) && is_ok (snd (step w tx)) then 1 else 0)
      in *.
    assert (Hk : 0 <= k) by (subst k; destruct (_ && _); lia).
    simpl successful_adds.
    replace (Z.of_nat ((if is_add tx.2 && is_ok (step w tx).2 then 1 else 0)
               + successful_adds txs (run (step w tx).1 txs).2))
      with (k + Z.of_nat (successful_adds txs (run (step w tx).1 txs).2))
      by (subst k; destruct (_ && _); lia).
    split; [lia|]. split; [|done].
    rewrite assigned_ids_cons, Hids, Hids', Hrc.
    rewrite seqZ_app by lia. do 2 f_equal. lia.
Qed.

Lemma deploy_dense o : ledger_dense (storage (deploy o)).
Proof. split; [done|]. simpl. by rewrite dom_empty_L. Qed.

End RunFacts.

(** C7. In any run from deployment in which N calls of
    [addFilteringRule] went through, whatever other calls are
    interleaved, [ruleCount] is N, the ids handed out (those announced
    by [RuleAdded]) are 1, 2, ..., N in that order, without repetition,
    the stored ids are exactly those, and [ruleCount] is the greatest id
    handed out; [updateFilteringRule] hands out no id and changes
    neither [ruleCount] nor the set of stored ids. *)
Theorem rule_ids_dense `{FHE : FHELib} (o : oracle) (txs : list (Env * Call)) :
  let w := fst (run (deploy o) txs) in
  let rs := snd (run (deploy o) txs) in
  let N := Z.of_nat (successful_adds txs rs) in
  ruleCount (storage w) = N
  /\ assigned_ids rs = seqZ 1 N
  /\ NoDup (assigned_ids rs)
  /\ dom (filteringRules (storage w)) = list_to_set (seqZ 1 N)
  /\ (forall i, i ∈ assigned_ids rs -> 1 <= i <= ruleCount (storage w))
  /\ (0 < N -> ruleCount (storage w) ∈ assigned_ids rs)
  /\ (forall (w0 : World) env i d p t,
        let w1 := fst (step w0 (env, UpdateFilteringRule i d p t)) in
        ruleCount (storage w1) = ruleCount (storage w0)
        /\ dom (filteringRules (storage w1)) = dom (filteringRules (storage w0))
        /\ assigned_ids [snd (step w0 (env, UpdateFilteringRule i d p t))]
           = []).
Proof.
  intros w rs N.
  destruct (run_ids txs (deploy o) (deploy_dense o)) as (Hrc & Hids & Hd).
  fold w rs N in Hrc, Hids, Hd. simpl in Hrc, Hids.
  destruct Hd as [_ Hdom].
  assert (Hrc' : ruleCount (storage w) = N) by lia.
  split; [done|]. split; [done|]. split; [|split; [|split; [|split]]].
  - rewrite Hids. apply NoDup_seqZ.
  - by rewrite Hdom, Hrc'.
  - intros i. rewrite Hids, elem_of_seqZ. lia.
  - intros HN. rewrite Hids, elem_of_seqZ. lia.
  - intros w0 env i d p t.
    destruct (exec env (UpdateFilteringRule i d p t) w0)
      as [[w' eff]|e] eqn:E.
    + rewrite (step_ok _ _ _ _ _ E). simpl in E |- *.
      apply updateFilteringRule_inv in E as (Hts & -> & ->). simpl.
      split; [done|]. split; [|done].
      apply stored_of_stamp in Hts. rewrite dom_insert_L.
      apply subseteq_union_1_L. by apply singleton_subseteq_l.
    + by rewrite (step_revert _ _ _ _ E).
Qed.

(** Two rules added around a rejected update, an accepted update and a
    match request. *)
Lemma rule_ids_dense_witness :
  let txs := [tx 1 100 (AddFilteringRule 31 32 33);
              tx 1 110 (UpdateFilteringRule 5 1 1 1);
              tx 7 120 (RequestUrlMatching 11 22);
              tx 2 130 (UpdateFilteringRule 1 34 35 36);
              tx 1 200 (AddFilteringRule 41 42 43)] in
  let w := fst (run (deploy (0 : Z)) txs) in
  let rs := snd (run (deploy (0 : Z)) txs) in
  ruleCount (storage w) = 2
  /\ assigned_ids rs = [1; 2]
  /\ dom (filteringRules (storage w)) = {[1; 2]}.
Proof.
  intros txs w rs.
  destruct (rule_ids_dense (FHE := SimpleFHE) 0 txs)
    as (H1 & H2 & _ & H4 & _).
  split; [exact H1|]. split; [exact H2|].
  etransitivity; [exact H4|].
  change (list_to_set [1; 2] = ({[1; 2]} : gset Z)).
  simpl. by rewrite union_empty_r_L.
Defined.

(** ** Stamps and cursors along a run with non-decreasing block times *)

Section TimeFacts.
Context {FHE : FHELib}.

Lemma stamps_bounded_mono T T' st :
  T <= T' -> stamps_bounded T st -> stamps_bounded T' st.
Proof. intros HT [Hl Hr]. split; [lia|done]. Qed.

Lemma step_stamps T w tx :
  stamps_bounded T (storage w) ->
  T <= block_timestamp (fst tx) ->
  stamps_bounded (block_timestamp (fst tx)) (storage (fst (step w tx))).
Proof.
  intros [Hl Hr] HT. destruct tx as [env c]. simpl in HT |- *.
  destruct (exec env c w) as [[w' eff]|e] eqn:E.
  - rewrite (step_ok _ _ _ _ _ E). simpl.
    destruct (is_ledger_write c) eqn:Hw.
    + destruct c; simpl in Hw; try discriminate; simpl in E.
      * apply addFilteringRule_inv in E as (_ & -> & _). simpl.
        split; simpl; [lia|]. intros i.
        destruct (decide (ruleCount (storage w) + 1 = i)) as [<-|Hne].
        -- unfold rule_at; simpl. by rewrite lookup_insert_eq.
        -- unfold rule_at; simpl. rewrite lookup_insert_ne by done.
           specialize (Hr i). unfold rule_at in Hr. lia.
      * apply updateFilteringRule_inv in E as (_ & -> & _). simpl.
        split; simpl; [lia|]. intros j.
        destruct (decide (ruleId = j)) as [<-|Hne].
        -- unfold rule_at; simpl. by rewrite lookup_insert_eq.
        -- unfold rule_at; simpl. rewrite lookup_insert_ne by done.
           specialize (Hr j). unfold rule_at in Hr. lia.
    + destruct (exec_frame _ _ _ _ _ Hw E) as (Hled & _ & _).
      assert (Hlu : lastUpdateTimestamp (storage w')
                    = lastUpdateTimestamp (storage w))
        by (unfold ledger in Hled; by injection Hled).
      split; [lia|]. intros i.
      rewrite (rule_at_ledger _ _ _ Hled), Hlu. apply Hr.
  - rewrite (step_revert _ _ _ _ E). simpl. split; [lia|done].
Qed.

(** At the time of the transaction that follows a run, no stamp is in
    the future. *)
Lemma run_stamps txs : forall T w tx,
  stamps_bounded T (storage w) ->
  nondecreasing T (txs ++ [tx]) ->
  stamps_bounded (block_timestamp (fst tx)) (storage (fst (run w txs))).
Proof.
  induction txs as [|tx0 txs IH]; intros T w tx Hs Hn.
  - simpl in Hn |- *. destruct Hn as [HT _].
    by apply (stamps_bounded_mono T).
  - rewrite run_cons. simpl fst.
    simpl in Hn. destruct Hn as [HT Hn].
    apply (IH (block_timestamp (fst tx0))); [|done].
    by apply (step_stamps T).
Qed.

(** Without ledger writes the ledger stays and a cursor either stays or
    moves to the time of a later transaction. *)
Lemma run_no_writes txs : forall T w,
  no_ledger_writes txs ->
  nondecreasing T txs ->
  ledger (storage (fst (run w txs))) = ledger (storage w)
  /\ forall a, sync_of (storage (fst (run w txs))) a = sync_of (storage w) a
               \/ T <= sync_of (storage (fst (run w txs))) a.
Proof.
  induction txs as [|[env c] txs IH]; intros T w Hnw Hn.
  - simpl. by split; [|left].
  - rewrite run_cons. simpl fst.
    apply Forall_cons in Hnw as [Hc Hnw]. simpl in Hc.
    simpl in Hn. destruct Hn as [HT Hn].
    destruct (IH (block_timestamp env) (fst (step w (env, c))) Hnw Hn)
      as [Hled Hsync].
    destruct (exec env c w) as [[w' eff]|e] eqn:E.
    + rewrite (step_ok _ _ _ _ _ E) in Hled, Hsync |- *. simpl in *.
      destruct (exec_frame _ _ _ _ _ Hc E) as (Hled' & _ & Hsync').
      split; [congruence|]. intros a.
      destruct (Hsync a) as [Heq|Hge]; [|right; lia].
      destruct (Hsync' a) as [Heq'|[_ Heq']]; [left; congruence|].
      right. lia.
    + rewrite (step_revert _ _ _ _ E) in Hled, Hsync |- *. simpl in *.
      split; [done|]. intros a.
      destruct (Hsync a) as [Heq|Hge]; [by left|right; lia].
Qed.

Lemma deploy_stamps o : stamps_bounded 0 (storage (deploy o)).
Proof. split; simpl; [lia|]. intros i. unfold rule_at; simpl. done. Qed.

(** A cursor at or past every stamp selects nothing. *)
Lemma changed_ids_nil st a :
  (forall i, timestamp (rule_at st i) <= sync_of st a) ->
  changed_ids st a = [].
Proof.
  intros H. unfold changed_ids.
  induction (rule_ids st) as [|i l IH]; [done|]. simpl.
  unfold changed at 1.
  destruct (Z.ltb_spec (sync_of st a) (timestamp (rule_at st i)));
    [specialize (H i); lia | done].
Qed.

End TimeFacts.

Section CursorFacts.
Context {FHE : FHELib}.

Lemma nondecreasing_app T txs1 tx txs2 :
  nondecreasing T (txs1 ++ tx :: txs2) ->
  nondecreasing T (txs1 ++ [tx])
  /\ nondecreasing (block_timestamp (fst tx)) txs2.
Proof.
  revert T. induction txs1 as [|tx1 txs1 IH]; intros T; simpl.
  - by intros [HT Hn].
  - intros [HT Hn]. destruct (IH _ Hn) as [H1 H2]. by repeat split.
Qed.

(** The situation of C5 and C10: a run from deployment, then a
    [performMatching] that goes through at time [now], then calls that
    do not write the ledger, block times never going back. *)
Lemma after_matching o txs1 txs2 env rid results proof eff :
  let cb := (env, PerformMatching rid results proof) in
  let w1 := fst (run (deploy o) txs1) in
  let w2 := fst (step w1 cb) in
  let w3 := fst (run w2 txs2) in
  nondecreasing 0 (txs1 ++ cb :: txs2) ->
  no_ledger_writes txs2 ->
  snd (step w1 cb) = Ok eff ->
  stamps_bounded (block_timestamp env) (storage w1)
  /\ ledger (storage w2) = ledger (storage w1)
  /\ sync_of (storage w2) (msg_sender env) = block_timestamp env
  /\ ledger (storage w3) = ledger (storage w1)
  /\ block_timestamp env <= sync_of (storage w3) (msg_sender env).
Proof.
  intros cb w1 w2 w3 Hn Hnw Hok.
  apply nondecreasing_app in Hn as [Hn1 Hn2].
  pose proof (run_stamps txs1 0 (deploy o) cb (deploy_stamps o) Hn1) as Hs.
  fold w1 in Hs. simpl in Hs, Hn2.
  assert (Hw2 : exists score blk,
             w2 = with_storage (matched env score blk (storage w1)) w1).
  { subst w2. unfold step in *. simpl in *.
    destruct (performMatching env rid results proof w1)
      as [[w' eff']|e] eqn:E; [|discriminate].
    by apply performMatching_inv in E. }
  destruct Hw2 as (score & blk & Hw2).
  assert (Hl2 : ledger (storage w2) = ledger (storage w1))
    by (by rewrite Hw2).
  assert (Hc2 : sync_of (storage w2) (msg_sender env) = block_timestamp env).
  { rewrite Hw2. simpl. unfold matched. by rewrite sync_of_set_sync. }
  destruct (run_no_writes txs2 (block_timestamp env) w2 Hnw Hn2)
    as [Hl3 Hc3].
  fold w3 in Hl3, Hc3.
  split; [done|]. split; [done|]. split; [done|].
  split; [congruence|].
  destruct (Hc3 (msg_sender env)) as [Heq|Hge]; lia.
Qed.

End CursorFacts.

(** ** The cursor after a match callback *)

(** C10. When [performMatching] goes through for a caller it sets the
    caller's [lastSyncTimestamps] entry to the block time.  From then
    on, as long as no ledger write follows (block times never going
    back), [getRuleUpdates] for that caller leaves out every rule
    stamped at or before that time and [needsUpdate] answers false,
    although the caller never called [getRuleUpdates]. *)
Theorem performMatching_moves_cursor `{FHE : FHELib}
    (o : oracle) (txs1 txs2 : list (Env * Call)) (env : Env)
    (requestId : Z) (results proof : bytes) (eff : Effects) :
  let cb := (env, PerformMatching requestId results proof) in
  let w1 := fst (run (deploy o) txs1) in
  let w2 := fst (step w1 cb) in
  let w3 := fst (run w2 txs2) in
  let a := msg_sender env in
  nondecreasing 0 (txs1 ++ cb :: txs2) ->
  no_ledger_writes txs2 ->
  snd (step w1 cb) = Ok eff ->
  sync_of (storage w2) a = block_timestamp env
  /\ (forall i, timestamp (rule_at (storage w2) i) <= block_timestamp env ->
                i ∉ changed_ids (storage w2) a)
  /\ (forall i, timestamp (rule_at (storage w3) i) <= block_timestamp env ->
                i ∉ changed_ids (storage w3) a)
  /\ (forall now,
        ruleCount (storage w3) < MAX_UINT256 ->
        step w3 (mkEnv a now, GetRuleUpdates)
          = (w3, Ok (mkEffects (VUpdates (rule_updates (storage w3) a))
                               [] [])))
  /\ (forall now,
        step w3 (mkEnv a now, NeedsUpdate)
          = (w3, Ok (mkEffects (VBool false) [] []))).
Proof.
  intros cb w1 w2 w3 a Hn Hnw Hok.
  destruct (after_matching o txs1 txs2 env requestId results proof eff
              Hn Hnw Hok) as ([Hlu Hts] & Hl2 & Hc2 & Hl3 & Hc3).
  fold cb w1 w2 w3 a in Hlu, Hts, Hl2, Hc2, Hl3, Hc3.
  split; [done|]. split; [|split; [|split]].
  - intros i Hi Hin. apply changed_ids_spec in Hin as [_ Hin].
    rewrite Hc2 in Hin. lia.
  - intros i Hi Hin. apply changed_ids_spec in Hin as [_ Hin]. lia.
  - intros now Hmax.
    destruct (run_ids txs1 (deploy o) (deploy_dense o)) as (_ & _ & [Hpos _]).
    fold w1 in Hpos.
    assert (Hrc : ruleCount (storage w3) = ruleCount (storage w1))
      by (unfold ledger in Hl3; by injection Hl3).
    assert (Hnil : changed_ids (storage w3) a = []).
    { apply changed_ids_nil. intros i.
      rewrite (rule_at_ledger _ _ _ Hl3). specialize (Hts i). lia. }
    unfold step; simpl. unfold getRuleUpdates.
    rewrite getRuleUpdates_view_delta; [done|simpl; lia|].
    simpl. fold a. by rewrite Hnil.
  - intros now. unfold step; simpl. unfold needsUpdate, needsUpdate_view.
    simpl. fold a.
    assert (Hlu3 : lastUpdateTimestamp (storage w3)
                   = lastUpdateTimestamp (storage w1))
      by (unfold ledger in Hl3; by injection Hl3).
    rewrite Hlu3.
    destruct (Z.ltb_spec (sync_of (storage w3) a)
                (lastUpdateTimestamp (storage w1))); [lia|done].
Qed.

(** A rule is added at time 100; client 7 is matched at time 150 and
    has never fetched a delta. *)
Lemma performMatching_moves_cursor_witness :
  let results := encode_score_flag x5f x01 in
  let txs1 := [tx 1 100 (AddFilteringRule 31 32 33);
               tx 7 120 (RequestUrlMatching 11 22)] in
  let cb := tx 7 150 (PerformMatching 0 results results) in
  let txs2 := [tx 8 160 GetRuleUpdates] in
  let w3 := fst (run (deploy (0 : Z)) (txs1 ++ cb :: txs2)) in
  step w3 (tx 7 170 NeedsUpdate) = (w3, Ok (mkEffects (VBool false) [] []))
  /\ 1 ∉ changed_ids (storage w3) 7.
Proof.
  intros results txs1 cb txs2 w3.
  destruct (performMatching_moves_cursor (FHE := SimpleFHE) 0 txs1 txs2
              (mkEnv 7 150) 0 results results
              (mkEffects VUnit [MatchProcessed 7] []))
    as (_ & _ & H3 & _ & H5).
  - simpl. lia.
  - repeat constructor.
  - reflexivity.
  - split; [apply (H5 170)|]. apply H3. vm_compute. discriminate.
Defined.

(** * Further properties of the contract *)

Section MoreStepFacts.
Context {FHE : FHELib}.

(** [requestUrlMatching] with a payload the allocation accepts. *)
Lemma requestUrlMatching_exec env d p w :
  0 <= ruleCount (storage w) ->
  ruleCount (storage w) * 3 + 2 <= MAX_UINT64 ->
  let payload := match_payload (storage w) d p in
  let r := requestComputation (backend w) payload performMatching_selector in
  requestUrlMatching env d p w
  = Ok (mkWorld (set_match (msg_sender env)
                   (mkMatch (asEuint32 0) (asEbool false) false) (storage w))
                (snd r),
        mkEffects VUnit [MatchingRequested (msg_sender env)]
          [ComputationRequest payload performMatching_selector (fst r)]).
Proof.
  intros Hn Hb payload r. unfold requestUrlMatching.
  set (st := storage w) in *. set (n := ruleCount st) in *.
  pose proof MAX_UINT64_lt_MAX_UINT256 as H64.
  rewrite checked_mul_ok by lia. simpl.
  rewrite checked_add_ok by lia. simpl.
  rewrite new_array_ok by done. simpl.
  replace (Z.to_nat (n * 3 + 2))
    with (S (S (3 * length (seqZ 1 n) + 0)))
    by (rewrite length_seqZ; lia).
  simpl replicate.
  match goal with
  | |- context [array_set (?x :: ?rest) 0 ?v] =>
      change (array_set (x :: rest) 0 v) with (array_set ([] ++ x :: rest) 0 v)
  end.
  rewrite array_set_at by done. simpl.
  match goal with
  | |- context [array_set (?y :: ?x :: ?rest) 1 ?v] =>
      change (array_set (y :: x :: rest) 1 v)
        with (array_set ([y] ++ x :: rest) 1 v)
  end.
  rewrite array_set_at by done. simpl.
  rewrite for_1_to_foldM by lia.
  pose proof (copy_rules_fold st (seqZ 1 n)
                [euint32_toBytes32 d; euint32_toBytes32 p] 0%nat) as Hloop.
  simpl length in Hloop. simpl app in Hloop.
  change (Z.of_nat 2) with 2 in Hloop.
  rewrite Hloop by (rewrite length_seqZ; lia). simpl.
  rewrite app_nil_r. subst r payload. unfold match_payload, rule_ids.
  simpl app. fold st n. by destruct (requestComputation _ _ _).
Qed.

(** Whose match result and cursor a call can write. *)
Lemma exec_client_state env c w w' eff a :
  exec env c w = Ok (w', eff) ->
  own_match_call a (env, c) = false ->
  match_of (storage w') a = match_of (storage w) a
  /\ sync_of (storage w') a = sync_of (storage w) a.
Proof.
  intros H Hown. unfold own_match_call in Hown. simpl in Hown.
  destruct c; simpl in H, Hown.
  - by apply addFilteringRule_inv in H as (_ & -> & _).
  - by apply updateFilteringRule_inv in H as (_ & -> & _).
  - rewrite andb_true_r in Hown. apply Z.eqb_neq in Hown.
    unfold requestUrlMatching in H. bind_inv H. injection H as <- <-.
    simpl. by rewrite match_of_set_match_ne.
  - rewrite andb_true_r in Hown. apply Z.eqb_neq in Hown.
    unfold performMatching in H. bind_inv H. injection H as <- <-.
    simpl. rewrite sync_of_set_sync_ne by done.
    by rewrite match_of_set_sync, match_of_set_match_ne.
  - unfold getEncryptedMatchResult in H. bind_inv H. by injection H as <- <-.
  - unfold needsUpdate in H. by injection H as <- <-.
  - unfold getRuleUpdates in H. bind_inv H. by injection H as <- <-.
  - unfold requestDecisionDecryption in H. bind_inv H.
    by injection H as <- <-.
  - by apply decryptDecision_world in H as [-> _].
Qed.

(** A cursor moves only in the caller's own [performMatching]. *)
Lemma exec_sync env c w w' eff a :
  exec env c w = Ok (w', eff) ->
  (is_match_callback c && (msg_sender env =? a) = true
   /\ sync_of (storage w') a = block_timestamp env)
  \/ (is_match_callback c && (msg_sender env =? a) = false
      /\ sync_of (storage w') a = sync_of (storage w) a).
Proof.
  intros H.
  destruct (is_match_callback c && (msg_sender env =? a)) eqn:Hcb.
  - left. split; [done|]. destruct c; simpl in Hcb; try discriminate.
    apply Z.eqb_eq in Hcb as <-. simpl in H.
    unfold performMatching in H. bind_inv H. injection H as <- <-.
    simpl. by rewrite sync_of_set_sync.
  - right. split; [done|].
    destruct (own_match_call a (env, c)) eqn:Hown.
    + unfold own_match_call in Hown. simpl in Hown.
      apply andb_true_iff in Hown as [Hs Hc]. rewrite Hs in Hcb.
      rewrite andb_true_r in Hcb. rewrite Hcb, orb_false_r in Hc.
      destruct c; simpl in Hc; try discriminate. simpl in H.
      unfold requestUrlMatching in H. bind_inv H. by injection H as <- <-.
    + by apply (exec_client_state _ _ _ _ _ _ H Hown).
Qed.

End MoreStepFacts.

Section MoreRunFacts.
Context {FHE : FHELib}.

Lemma exec_ledger_frame env c w w' eff :
  is_ledger_write c = false ->
  exec env c w = Ok (w', eff) ->
  ruleCount (storage w') = ruleCount (storage w)
  /\ lastUpdateTimestamp (storage w') = lastUpdateTimestamp (storage w)
  /\ forall i, rule_at (storage w') i = rule_at (storage w) i.
Proof.
  intros Hc H. destruct (exec_frame _ _ _ _ _ Hc H) as (Hl & _ & _).
  split; [|split].
  - unfold ledger in Hl. by injection Hl.
  - unfold ledger in Hl. by injection Hl.
  - intros i. by apply rule_at_ledger.
Qed.

Lemma unknown_id_unstamped st i :
  ledger_dense st -> ~ (1 <= i <= ruleCount st) ->
  timestamp (rule_at st i) = 0.
Proof.
  intros [_ Hdom] Hi. unfold rule_at.
  assert (Hnone : filteringRules st !! i = None).
  { apply not_elem_of_dom. rewrite Hdom, elem_of_list_to_set, elem_of_seqZ.
    lia. }
  by rewrite Hnone.
Qed.

Lemma known_id_of_stamp st i :
  ledger_dense st -> 0 < timestamp (rule_at st i) -> 1 <= i <= ruleCount st.
Proof.
  intros Hd Hts.
  destruct (decide (1 <= i <= ruleCount st)) as [|Hn]; [done|].
  rewrite (unknown_id_unstamped _ _ Hd Hn) in Hts. lia.
Qed.

Lemma step_stamped w tx :
  stamped (storage w) ->
  0 < block_timestamp (fst tx) ->
  stamped (storage (fst (step w tx))).
Proof.
  intros Hs Hnow. destruct tx as [env c]. simpl in Hnow.
  destruct (exec env c w) as [[w' eff]|e] eqn:E.
  - rewrite (step_ok _ _ _ _ _ E). simpl.
    destruct (is_ledger_write c) eqn:Hw.
    + destruct c; simpl in Hw; try discriminate; simpl in E.
      * apply addFilteringRule_inv in E as (_ & -> & _).
        intros i Hi. simpl in Hi |- *.
        destruct (decide (ruleCount (storage w) + 1 = i)) as [<-|Hne].
        -- unfold rule_at; simpl. by rewrite lookup_insert_eq.
        -- unfold rule_at; simpl. rewrite lookup_insert_ne by done.
           apply Hs. lia.
      * apply updateFilteringRule_inv in E as (_ & -> & _).
        intros j Hj. simpl in Hj |- *.
        destruct (decide (ruleId = j)) as [<-|Hne].
        -- unfold rule_at; simpl. by rewrite lookup_insert_eq.
        -- unfold rule_at; simpl. rewrite lookup_insert_ne by done.
           by apply Hs.
    + destruct (exec_ledger_frame _ _ _ _ _ Hw E) as (Hrc & _ & Hr).
      intros i Hi. rewrite Hr. apply Hs. by rewrite <- Hrc.
  - by rewrite (step_revert _ _ _ _ E).
Qed.

Lemma run_stamped txs : forall w,
  stamped (storage w) ->
  Forall (fun tx => 0 < block_timestamp (fst tx)) txs ->
  stamped (storage (fst (run w txs))).
Proof.
  induction txs as [|tx txs IH]; intros w Hs Hpos; [done|].
  apply Forall_cons in Hpos as [Hnow Hpos].
  rewrite run_cons. simpl fst. apply IH; [|done].
  by apply step_stamped.
Qed.

Lemma step_fresh w tx :
  ledger_dense (storage w) ->
  fresh_stamp (storage w) ->
  fresh_stamp (storage (fst (step w tx))).
Proof.
  intros Hd Hf. destruct tx as [env c].
  destruct (exec env c w) as [[w' eff]|e] eqn:E.
  - rewrite (step_ok _ _ _ _ _ E). simpl.
    destruct (is_ledger_write c) eqn:Hw.
    + destruct c; simpl in Hw; try discriminate; simpl in E.
      * apply addFilteringRule_inv in E as (_ & -> & _).
        intros Hpos. simpl in Hpos |- *.
        exists (ruleCount (storage w) + 1). destruct Hd as [Hrc _].
        split; [lia|]. unfold rule_at; simpl.
        by rewrite lookup_insert_eq.
      * apply updateFilteringRule_inv in E as (Hts & -> & _).
        intros Hpos. simpl in Hpos |- *.
        exists ruleId. split; [by apply known_id_of_stamp|].
        unfold rule_at; simpl. by rewrite lookup_insert_eq.
    + destruct (exec_ledger_frame _ _ _ _ _ Hw E) as (Hrc & Hlu & Hr).
      intros Hpos. rewrite Hlu in Hpos |- *.
      destruct (Hf Hpos) as (i & Hi & Hti).
      exists i. by rewrite Hrc, Hr.
  - by rewrite (step_revert _ _ _ _ E).
Qed.

Lemma step_cursors T w tx :
  cursors_bounded T (storage w) ->
  0 <= T <= block_timestamp (fst tx) ->
  cursors_bounded (block_timestamp (fst tx)) (storage (fst (step w tx))).
Proof.
  intros Hc HT a. destruct tx as [env c]. simpl in HT |- *.
  specialize (Hc a).
  destruct (exec env c w) as [[w' eff]|e] eqn:E.
  - rewrite (step_ok _ _ _ _ _ E). simpl.
    destruct (exec_sync _ _ _ _ _ a E) as [[_ ->]|[_ ->]]; lia.
  - rewrite (step_revert _ _ _ _ E). simpl. lia.
Qed.

(** What runs from a well-formed world keep when block times never go
    back. *)
Lemma run_inv txs : forall T w,
  0 <= T ->
  ledger_dense (storage w) -> stamps_bounded T (storage w) ->
  fresh_stamp (storage w) -> cursors_bounded T (storage w) ->
  nondecreasing T txs ->
  let st := storage (fst (run w txs)) in
  exists T', T <= T' /\ ledger_dense st /\ stamps_bounded T' st
             /\ fresh_stamp st /\ cursors_bounded T' st.
Proof.
  induction txs as [|tx txs IH]; intros T w HT Hd Hs Hf Hc Hn.
  - exists T. simpl. split; [lia|]. by split; [|split; [|split]].
  - rewrite run_cons. simpl fst. destruct Hn as [Hnow Hn].
    destruct (step_ids w tx Hd) as (_ & _ & Hd1).
    pose proof (step_stamps T w tx Hs Hnow) as Hs1.
    pose proof (step_fresh w tx Hd Hf) as Hf1.
    pose proof (step_cursors T w tx Hc (conj HT Hnow)) as Hc1.
    destruct (IH (block_timestamp (fst tx)) (fst (step w tx))
                ltac:(lia) Hd1 Hs1 Hf1 Hc1 Hn) as (T' & HT' & Hrest).
    exists T'. split; [lia|done].
Qed.

Lemma deploy_inv o :
  stamped (storage (deploy o)) /\ fresh_stamp (storage (deploy o))
  /\ cursors_bounded 0 (storage (deploy o)).
Proof.
  split; [|split].
  - intros i Hi. simpl in Hi. lia.
  - intros Hpos. simpl in Hpos. lia.
  - intros a. unfold sync_of; simpl. rewrite lookup_empty. simpl. lia.
Qed.

Lemma run_last_write txs : forall w,
  lastUpdateTimestamp (storage (fst (run w txs)))
  = last_write_time txs (snd (run w txs)) (lastUpdateTimestamp (storage w)).
Proof.
  induction txs as [|[env c] txs IH]; intros w; [done|].
  rewrite run_cons. simpl fst. simpl snd. simpl last_write_time.
  rewrite IH. f_equal.
  destruct (exec env c w) as [[w' eff]|e] eqn:E.
  - rewrite (step_ok _ _ _ _ _ E). simpl. rewrite andb_true_r.
    destruct (is_ledger_write c) eqn:Hw.
    + destruct c; simpl in Hw; try discriminate; simpl in E.
      * by apply addFilteringRule_inv in E as (_ & -> & _).
      * by apply updateFilteringRule_inv in E as (_ & -> & _).
    + by destruct (exec_ledger_frame _ _ _ _ _ Hw E) as (_ & -> & _).
  - rewrite (step_revert _ _ _ _ E). simpl. by rewrite andb_false_r.
Qed.

Lemma run_last_match a txs : forall w,
  sync_of (storage (fst (run w txs))) a
  = last_match_time a txs (snd (run w txs)) (sync_of (storage w) a).
Proof.
  induction txs as [|[env c] txs IH]; intros w; [done|].
  rewrite run_cons. simpl fst. simpl snd. simpl last_match_time.
  rewrite IH. f_equal.
  destruct (exec env c w) as [[w' eff]|e] eqn:E.
  - rewrite (step_ok _ _ _ _ _ E). simpl. rewrite andb_true_r.
    by destruct (exec_sync _ _ _ _ _ a E) as [[-> ->]|[-> ->]].
  - rewrite (step_revert _ _ _ _ E). simpl. by rewrite andb_false_r.
Qed.

Lemma run_client_state a txs : forall w,
  Forall (fun tx => own_match_call a tx = false) txs ->
  match_of (storage (fst (run w txs))) a = match_of (storage w) a
  /\ sync_of (storage (fst (run w txs))) a = sync_of (storage w) a.
Proof.
  induction txs as [|[env c] txs IH]; intros w Hown; [done|].
  apply Forall_cons in Hown as [Hc Hown].
  rewrite run_cons. simpl fst.
  destruct (IH (fst (step w (env, c))) Hown) as [-> ->].
  destruct (exec env c w) as [[w' eff]|e] eqn:E.
  - rewrite (step_ok _ _ _ _ _ E). simpl.
    by apply (exec_client_state _ _ _ _ _ _ E Hc).
  - by rewrite (step_revert _ _ _ _ E).
Qed.

Lemma run_cursor_mono a txs : forall T w,
  sync_of (storage w) a <= T ->
  nondecreasing T txs ->
  sync_of (storage w) a <= sync_of (storage (fst (run w txs))) a.
Proof.
  induction txs as [|[env c] txs IH]; intros T w Hs Hn; [done|].
  rewrite run_cons. simpl fst. destruct Hn as [Hnow Hn]. simpl in Hnow, Hn.
  assert (H1 : sync_of (storage w) a
               <= sync_of (storage (fst (step w (env, c)))) a
               <= block_timestamp env).
  { destruct (exec env c w) as [[w' eff]|e] eqn:E.
    - rewrite (step_ok _ _ _ _ _ E). simpl.
      destruct (exec_sync _ _ _ _ _ a E) as [[_ ->]|[_ ->]]; lia.
    - rewrite (step_revert _ _ _ _ E). simpl. lia. }
  specialize (IH (block_timestamp env) (fst (step w (env, c)))
                ltac:(lia) Hn).
  lia.
Qed.

End MoreRunFacts.

Section WriteFacts.
Context {FHE : FHELib}.

Lemma updateFilteringRule_exec env i d p t w :
  0 < timestamp (rule_at (storage w) i) ->
  updateFilteringRule env i d p t w
  = Ok (with_storage
          (set_lastUpdateTimestamp (block_timestamp env)
             (set_rule i (mkRule d p t (block_timestamp env)) (storage w))) w,
        mkEffects VUnit [RuleUpdated i] []).
Proof.
  intros Hts.
  destruct (updateFilteringRule env i d p t w) as [[w' eff]|e] eqn:E.
  - by apply updateFilteringRule_inv in E as (_ & -> & ->).
  - unfold updateFilteringRule, onlyMaintainer in E.
    destruct (Z.ltb_spec 0 (timestamp (rule_at (storage w) i)));
      [discriminate|lia].
Qed.

Lemma addFilteringRule_exec env d p t w :
  ruleCount (storage w) + 1 <= MAX_UINT256 ->
  let newId := ruleCount (storage w) + 1 in
  addFilteringRule env d p t w
  = Ok (with_storage
          (set_lastUpdateTimestamp (block_timestamp env)
             (set_rule newId (mkRule d p t (block_timestamp env))
                (set_ruleCount newId (storage w)))) w,
        mkEffects VUnit [RuleAdded newId (block_timestamp env)] []).
Proof.
  intros Hmax newId. unfold addFilteringRule, onlyMaintainer.
  by rewrite checked_add_ok by done.
Qed.

Lemma flat_map_rule_words_ext st st' l :
  (forall j, j ∈ l -> rule_at st' j = rule_at st j) ->
  flat_map (rule_words st') l = flat_map (rule_words st) l.
Proof.
  induction l as [|j l IH]; intros H; [done|]. simpl.
  rewrite IH by (intros k Hk; apply H; by right).
  unfold rule_words. by rewrite (H j) by left.
Qed.

End WriteFacts.

(** ** Updating a rule *)

(** X1. Along a run from deployment in which every block time is
    positive, [updateFilteringRule] goes through for the ids
    1, ..., [ruleCount] and for no other: for any other id it reverts
    with [NotFound] and commits nothing. *)
Theorem updateFilteringRule_known_ids `{FHE : FHELib}
    (o : oracle) (txs : list (Env * Call)) (env : Env) (i : Z)
    (d p t : euint32) :
  Forall (fun tx => 0 < block_timestamp (fst tx)) txs ->
  let w := fst (run (deploy o) txs) in
  (1 <= i <= ruleCount (storage w) ->
   snd (step w (env, UpdateFilteringRule i d p t))
     = Ok (mkEffects VUnit [RuleUpdated i] []))
  /\ (~ (1 <= i <= ruleCount (storage w)) ->
      step w (env, UpdateFilteringRule i d p t) = (w, Revert NotFound)).
Proof.
  intros Hpos w.
  destruct (run_ids txs (deploy o) (deploy_dense o)) as (_ & _ & Hd).
  destruct (deploy_inv o) as (Hs0 & _ & _).
  pose proof (run_stamped txs (deploy o) Hs0 Hpos) as Hs.
  fold w in Hd, Hs. split.
  - intros Hi. unfold step; simpl.
    by rewrite updateFilteringRule_exec by (by apply Hs).
  - intros Hi. unfold step; simpl. unfold updateFilteringRule, onlyMaintainer.
    by rewrite (unknown_id_unstamped _ _ Hd Hi).
Qed.

(** Two rules are stored; ids 2 and 3 are tried. *)
Lemma updateFilteringRule_known_ids_witness :
  let txs := [tx 1 100 (AddFilteringRule 31 32 33);
              tx 1 200 (AddFilteringRule 41 42 43)] in
  let w := fst (run (deploy (0 : Z)) txs) in
  snd (step w (tx 9 300 (UpdateFilteringRule 2 1 1 1)))
    = Ok (mkEffects VUnit [RuleUpdated 2] [])
  /\ step w (tx 9 300 (UpdateFilteringRule 3 1 1 1)) = (w, Revert NotFound)
  /\ step w (tx 9 300 (UpdateFilteringRule 0 1 1 1)) = (w, Revert NotFound).
Proof.
  intros txs w.
  assert (Hpos : Forall (fun tx : Env * Call => 0 < block_timestamp (fst tx))
                        txs) by (repeat constructor).
  destruct (updateFilteringRule_known_ids (FHE := SimpleFHE) 0 txs
              (mkEnv 9 300) 2 1 1 1 Hpos) as [H2 _].
  destruct (updateFilteringRule_known_ids (FHE := SimpleFHE) 0 txs
              (mkEnv 9 300) 3 1 1 1 Hpos) as [_ H3].
  destruct (updateFilteringRule_known_ids (FHE := SimpleFHE) 0 txs
              (mkEnv 9 300) 0 1 1 1 Hpos) as [_ H0].
  split; [apply H2; by vm_compute|].
  split; [apply H3 | apply H0]; vm_compute; intros [H H']; by apply H || by apply H'.
Defined.

(** X2. An [updateFilteringRule] on a rule with a positive stamp goes
    through for any caller; afterwards that id reads as the three new
    ciphertexts stamped with the block time, every other rule reads as
    before, [ruleCount] and every match result and cursor are
    unchanged, [lastUpdateTimestamp] is the block time, and a match
    payload keeps its length. *)
Theorem updateFilteringRule_effect `{FHE : FHELib}
    (env : Env) (i : Z) (d p t : euint32) (w : World) :
  0 < timestamp (rule_at (storage w) i) ->
  let w1 := fst (step w (env, UpdateFilteringRule i d p t)) in
  snd (step w (env, UpdateFilteringRule i d p t))
    = Ok (mkEffects VUnit [RuleUpdated i] [])
  /\ rule_at (storage w1) i = mkRule d p t (block_timestamp env)
  /\ (forall j, j <> i -> rule_at (storage w1) j = rule_at (storage w) j)
  /\ ruleCount (storage w1) = ruleCount (storage w)
  /\ lastUpdateTimestamp (storage w1) = block_timestamp env
  /\ matchResults (storage w1) = matchResults (storage w)
  /\ lastSyncTimestamps (storage w1) = lastSyncTimestamps (storage w)
  /\ backend w1 = backend w
  /\ (forall D P, length (match_payload (storage w1) D P)
                  = length (match_payload (storage w) D P)).
Proof.
  intros Hts w1.
  assert (Hw1 : step w (env, UpdateFilteringRule i d p t)
                = (with_storage
                     (set_lastUpdateTimestamp (block_timestamp env)
                        (set_rule i (mkRule d p t (block_timestamp env))
                           (storage w))) w,
                   Ok (mkEffects VUnit [RuleUpdated i] []))).
  { unfold step; simpl. by rewrite updateFilteringRule_exec. }
  subst w1. rewrite Hw1. simpl.
  split; [done|]. split.
  { unfold rule_at; simpl. by rewrite lookup_insert_eq. }
  split.
  { intros j Hj. unfold rule_at; simpl. by rewrite lookup_insert_ne. }
  repeat (split; [done|]).
  intros D P. unfold match_payload, rule_ids. simpl.
  do 2 f_equal.
  generalize (seqZ 1 (ruleCount (storage w))).
  induction l as [|j l IH]; [done|]. simpl. by rewrite IH.
Qed.

Lemma updateFilteringRule_effect_witness :
  let w := fst (run (deploy (0 : Z))
                  [tx 1 100 (AddFilteringRule 31 32 33);
                   tx 1 200 (AddFilteringRule 41 42 43)]) in
  let w1 := fst (step w (tx 9 300 (UpdateFilteringRule 2 51 52 53))) in
  rule_at (storage w1) 2 = mkRule 51 52 53 300
  /\ rule_at (storage w1) 1 = rule_at (storage w) 1.
Proof.
  intros w w1.
  destruct (updateFilteringRule_effect (FHE := SimpleFHE) (mkEnv 9 300) 2
              51 52 53 w) as (_ & H2 & H3 & _); [by vm_compute|].
  split; [exact H2|]. apply H3. discriminate.
Defined.

(** ** Adding a rule *)

(** X3. An [addFilteringRule] with room left in [ruleCount] goes
    through for any caller and stores the new rule under the id
    [ruleCount + 1] without touching any other id; the next
    [requestUrlMatching], when its payload of [(ruleCount + 1) * 3 + 2]
    words is one the allocation accepts (at most [2^64 - 1]), then
    sends the payload it would have sent before, followed by the three
    ciphertexts of the new rule. *)
Theorem added_rule_extends_payload `{FHE : FHELib}
    (env env' : Env) (d p t D P : euint32) (w : World) :
  0 <= ruleCount (storage w) ->
  ruleCount (storage w) + 1 <= MAX_UINT256 ->
  let newId := ruleCount (storage w) + 1 in
  let w1 := fst (step w (env, AddFilteringRule d p t)) in
  let payload :=
    match_payload (storage w) D P
    ++ [euint32_toBytes32 d; euint32_toBytes32 p; euint32_toBytes32 t] in
  snd (step w (env, AddFilteringRule d p t))
    = Ok (mkEffects VUnit [RuleAdded newId (block_timestamp env)] [])
  /\ rule_at (storage w1) newId = mkRule d p t (block_timestamp env)
  /\ (forall j, j <> newId -> rule_at (storage w1) j = rule_at (storage w) j)
  /\ ((ruleCount (storage w) + 1) * 3 + 2 <= MAX_UINT64 ->
      snd (step w1 (env', RequestUrlMatching D P))
      = Ok (mkEffects VUnit [MatchingRequested (msg_sender env')]
              [ComputationRequest payload performMatching_selector
                 (fst (requestComputation (backend w) payload
                         performMatching_selector))])).
Proof.
  intros Hn Hb newId w1 payload.
  assert (Hw1 : step w (env, AddFilteringRule d p t)
                = (with_storage
                     (set_lastUpdateTimestamp (block_timestamp env)
                        (set_rule newId (mkRule d p t (block_timestamp env))
                           (set_ruleCount newId (storage w)))) w,
                   Ok (mkEffects VUnit
                         [RuleAdded newId (block_timestamp env)] []))).
  { unfold step; simpl. by rewrite addFilteringRule_exec by lia. }
  assert (Hnew : rule_at (storage w1) newId
                 = mkRule d p t (block_timestamp env)).
  { subst w1. rewrite Hw1. unfold rule_at; simpl.
    by rewrite lookup_insert_eq. }
  assert (Hold : forall j, j <> newId ->
                           rule_at (storage w1) j = rule_at (storage w) j).
  { intros j Hj. subst w1. rewrite Hw1. unfold rule_at; simpl.
    by rewrite lookup_insert_ne. }
  assert (Hrc : ruleCount (storage w1) = newId)
    by (subst w1; by rewrite Hw1).
  assert (Hbk : backend w1 = backend w) by (subst w1; by rewrite Hw1).
  split; [by rewrite Hw1|]. split; [done|]. split; [done|].
  intros Halloc. unfold step; simpl.
  rewrite requestUrlMatching_exec by (rewrite Hrc; subst newId; lia).
  simpl.
  assert (Hp : match_payload (storage w1) D P = payload).
  { subst payload. unfold match_payload, rule_ids. rewrite Hrc.
    subst newId. rewrite (seqZ_app 1 (ruleCount (storage w)) 1) by lia.
    rewrite flat_map_app.
    rewrite (flat_map_rule_words_ext (storage w) (storage w1))
      by (intros j Hj; apply elem_of_seqZ in Hj; apply Hold; lia).
    replace (1 + ruleCount (storage w)) with (ruleCount (storage w) + 1)
      by lia.
    change (seqZ (ruleCount (storage w) + 1) 1)
      with [ruleCount (storage w) + 1].
    simpl flat_map. by rewrite Hnew. }
  by rewrite Hp, Hbk.
Qed.

Lemma added_rule_extends_payload_witness :
  let w := fst (run (deploy (0 : Z)) [tx 1 100 (AddFilteringRule 31 32 33)]) in
  let w1 := fst (step w (tx 2 200 (AddFilteringRule 41 42 43))) in
  snd (step w1 (tx 7 300 (RequestUrlMatching 11 22)))
    = Ok (mkEffects VUnit [MatchingRequested 7]
            [ComputationRequest [11; 22; 31; 32; 33; 41; 42; 43]
               performMatching_selector 0]).
Proof.
  intros w w1.
  destruct (added_rule_extends_payload (FHE := SimpleFHE) (mkEnv 2 200)
              (mkEnv 7 300) 41 42 43 11 22 w) as (_ & _ & _ & H).
  - by vm_compute.
  - by vm_compute.
  - apply H. by vm_compute.
Defined.

(** X4. A ledger write that goes through at block time [now], in a world
    reached from deployment, is seen by every client whose cursor is
    before [now]: for such a client [needsUpdate] answers true and the
    id announced by the write is in the client's delta. *)
Theorem ledger_write_reaches_stale_clients `{FHE : FHELib}
    (o : oracle) (txs : list (Env * Call)) (env : Env) (c : Call)
    (eff : Effects) (a : address) :
  let w := fst (run (deploy o) txs) in
  let w1 := fst (step w (env, c)) in
  is_ledger_write c = true ->
  snd (step w (env, c)) = Ok eff ->
  sync_of (storage w) a < block_timestamp env ->
  (forall now, step w1 (mkEnv a now, NeedsUpdate)
               = (w1, Ok (mkEffects (VBool true) [] [])))
  /\ exists i,
       (logs eff = [RuleAdded i (block_timestamp env)]
        \/ logs eff = [RuleUpdated i])
       /\ i ∈ changed_ids (storage w1) a
       /\ timestamp (rule_at (storage w1) i) = block_timestamp env.
Proof.
  intros w w1 Hc Hok Hsync.
  destruct (run_ids txs (deploy o) (deploy_dense o)) as (_ & _ & Hd).
  fold w in Hd.
  destruct (exec env c w) as [[w' eff']|e] eqn:E.
  2:{ rewrite (step_revert _ _ _ _ E) in Hok. discriminate. }
  assert (Hw1 : w1 = w') by (subst w1; by rewrite (step_ok _ _ _ _ _ E)).
  rewrite (step_ok _ _ _ _ _ E) in Hok. simpl in Hok.
  injection Hok as ->.
  assert (Hcur : sync_of (storage w1) a = sync_of (storage w) a).
  { rewrite Hw1. apply (exec_client_state _ _ _ _ _ a E).
    unfold own_match_call; simpl. destruct c; try discriminate; simpl;
      by rewrite andb_false_r. }
  destruct c; simpl in Hc; try discriminate; simpl in E.
  - apply addFilteringRule_inv in E as (_ & Hw' & ->).
    rewrite <- Hw1 in Hw'. split.
    + assert (Hlu : lastUpdateTimestamp (storage w1) = block_timestamp env)
        by (by rewrite Hw').
      intros now. unfold step; simpl. unfold needsUpdate, needsUpdate_view.
      simpl. rewrite Hcur, Hlu.
      destruct (Z.ltb_spec (sync_of (storage w) a) (block_timestamp env));
        [done|lia].
    + exists (ruleCount (storage w) + 1). split; [by left|].
      assert (Hts : timestamp (rule_at (storage w1)
                                 (ruleCount (storage w) + 1))
                    = block_timestamp env).
      { rewrite Hw'. unfold rule_at; simpl. by rewrite lookup_insert_eq. }
      split; [|done]. apply changed_ids_spec. rewrite Hts, Hcur.
      split; [|done]. rewrite Hw'. simpl. destruct Hd as [Hrc _]. lia.
  - apply updateFilteringRule_inv in E as (Hpos & Hw' & ->).
    rewrite <- Hw1 in Hw'. split.
    + assert (Hlu : lastUpdateTimestamp (storage w1) = block_timestamp env)
        by (by rewrite Hw').
      intros now. unfold step; simpl. unfold needsUpdate, needsUpdate_view.
      simpl. rewrite Hcur, Hlu.
      destruct (Z.ltb_spec (sync_of (storage w) a) (block_timestamp env));
        [done|lia].
    + exists ruleId. split; [by right|].
      assert (Hts : timestamp (rule_at (storage w1) ruleId)
                    = block_timestamp env).
      { rewrite Hw'. unfold rule_at; simpl. by rewrite lookup_insert_eq. }
      split; [|done]. apply changed_ids_spec. rewrite Hts, Hcur.
      split; [|done]. rewrite Hw'. simpl.
      by apply known_id_of_stamp.
Qed.

(** Client 7 was matched at time 150; rule 1 is rewritten at time 200. *)
Lemma ledger_write_reaches_stale_clients_witness :
  let results := encode_score_flag x5f x01 in
  let txs := [tx 1 100 (AddFilteringRule 31 32 33);
              tx 7 120 (RequestUrlMatching 11 22);
              tx 7 150 (PerformMatching 0 results results)] in
  let w := fst (run (deploy (0 : Z)) txs) in
  let w1 := fst (step w (tx 2 200 (UpdateFilteringRule 1 34 35 36))) in
  step w1 (tx 7 210 NeedsUpdate) = (w1, Ok (mkEffects (VBool true) [] [])).
Proof.
  intros results txs w w1.
  destruct (ledger_write_reaches_stale_clients (FHE := SimpleFHE) 0 txs
              (mkEnv 2 200) (@UpdateFilteringRule SimpleFHE 1 34 35 36)
              (mkEffects VUnit [RuleUpdated 1] []) 7) as [H _].
  - reflexivity.
  - reflexivity.
  - by vm_compute.
  - apply (H 210).
Defined.

(** ** Match results and their owners *)

(** X5. A [requestUrlMatching] whose payload is one the allocation
    accepts ([ruleCount * 3 + 2] at most [2^64 - 1]) goes through and
    resets the caller's
    match result to unprocessed, whatever it was: until a
    [performMatching] of the caller, [getEncryptedMatchResult] and
    [requestDecisionDecryption] of the caller revert with
    [NotProcessed].  The ledger and the cursors are not touched. *)
Theorem requestUrlMatching_resets_result `{FHE : FHELib}
    (env : Env) (D P : euint32) (w : World) :
  0 <= ruleCount (storage w) ->
  ruleCount (storage w) * 3 + 2 <= MAX_UINT64 ->
  let a := msg_sender env in
  let w1 := fst (step w (env, RequestUrlMatching D P)) in
  match_of (storage w1) a = mkMatch (asEuint32 0) (asEbool false) false
  /\ (forall now, step w1 (mkEnv a now, GetEncryptedMatchResult)
                  = (w1, Revert NotProcessed))
  /\ (forall now, step w1 (mkEnv a now, RequestDecisionDecryption)
                  = (w1, Revert NotProcessed))
  /\ ledger (storage w1) = ledger (storage w)
  /\ lastSyncTimestamps (storage w1) = lastSyncTimestamps (storage w).
Proof.
  intros Hn Hb a w1.
  assert (Hm : match_of (storage w1) a
               = mkMatch (asEuint32 0) (asEbool false) false).
  { subst w1. unfold step; simpl.
    rewrite requestUrlMatching_exec by done. simpl.
    apply match_of_set_match. }
  split; [done|]. split; [|split; [|split]].
  - intros now. unfold step; simpl. unfold getEncryptedMatchResult; simpl.
    by rewrite Hm.
  - intros now. unfold step; simpl. unfold requestDecisionDecryption; simpl.
    by rewrite Hm.
  - subst w1. unfold step; simpl. by rewrite requestUrlMatching_exec by done.
  - subst w1. unfold step; simpl. by rewrite requestUrlMatching_exec by done.
Qed.

(** Client 7 holds a processed result and asks for a new match. *)
Lemma requestUrlMatching_resets_result_witness :
  let results := encode_score_flag x5f x01 in
  let w := fst (run (deploy (0 : Z))
                  [tx 7 10 (RequestUrlMatching 11 22);
                   tx 7 20 (PerformMatching 0 results results)]) in
  let w1 := fst (step w (tx 7 30 (RequestUrlMatching 33 44))) in
  step w (tx 7 25 GetEncryptedMatchResult)
    = (w, Ok (mkEffects (VEbool 1) [] []))
  /\ step w1 (tx 7 40 GetEncryptedMatchResult) = (w1, Revert NotProcessed).
Proof.
  intros results w w1. split; [reflexivity|].
  destruct (requestUrlMatching_resets_result (FHE := SimpleFHE)
              (mkEnv 7 30) 33 44 w) as (_ & H & _).
  - by vm_compute.
  - by vm_compute.
  - apply (H 40).
Defined.

(** X6. The result of a match callback is filed under the address that
    sends the callback: when [a] has requested a match (with a payload
    the allocation accepts, [ruleCount * 3 + 2] at most [2^64 - 1]) and
    another
    address [b] delivers the verified result, [a]'s result stays
    unprocessed and [b] reads the delivered decision. *)
Theorem callback_result_goes_to_its_sender `{FHE : FHELib}
    (envA envB : Env) (D P : euint32) (w : World)
    (requestId : Z) (data proof : bytes) (score : Z) (blk : bool) :
  0 <= ruleCount (storage w) ->
  ruleCount (storage w) * 3 + 2 <= MAX_UINT64 ->
  msg_sender envA <> msg_sender envB ->
  let w1 := fst (step w (envA, RequestUrlMatching D P)) in
  checkSignatures (backend w1) requestId data proof = true ->
  abi_decode_uint32_bool data = Ok (score, blk) ->
  let w2 := fst (step w1 (envB, PerformMatching requestId data proof)) in
  (forall now, step w2 (mkEnv (msg_sender envA) now, GetEncryptedMatchResult)
               = (w2, Revert NotProcessed))
  /\ (forall now, step w2 (mkEnv (msg_sender envB) now, GetEncryptedMatchResult)
                  = (w2, Ok (mkEffects (VEbool (asEbool blk)) [] [])))
  /\ sync_of (storage w2) (msg_sender envA)
     = sync_of (storage w) (msg_sender envA).
Proof.
  intros Hn Hb Hab w1 Hsig Hdec w2.
  assert (Hw1 : w1 = mkWorld (set_match (msg_sender envA)
                                (mkMatch (asEuint32 0) (asEbool false) false)
                                (storage w)) (backend w1)).
  { subst w1. unfold step; simpl.
    by rewrite requestUrlMatching_exec by done. }
  assert (Hw2 : w2 = with_storage (matched envB score blk (storage w1)) w1).
  { subst w2. unfold step; simpl.
    by rewrite (performMatching_ok _ _ _ _ _ _ _ Hsig Hdec). }
  assert (HmA : match_of (storage w2) (msg_sender envA)
                = mkMatch (asEuint32 0) (asEbool false) false).
  { rewrite Hw2. simpl. unfold matched.
    rewrite match_of_set_sync, match_of_set_match_ne by done.
    rewrite Hw1. simpl. apply match_of_set_match. }
  assert (HmB : match_of (storage w2) (msg_sender envB)
                = mkMatch (asEuint32 score) (asEbool blk) true).
  { rewrite Hw2. simpl. unfold matched.
    by rewrite match_of_set_sync, match_of_set_match. }
  split; [|split].
  - intros now. unfold step; simpl. unfold getEncryptedMatchResult; simpl.
    by rewrite HmA.
  - intros now. unfold step; simpl. unfold getEncryptedMatchResult; simpl.
    by rewrite HmB.
  - rewrite Hw2. simpl. unfold matched.
    rewrite sync_of_set_sync_ne by done. by rewrite Hw1.
Qed.

(** Client 7 asks; address 99 delivers. *)
Lemma callback_result_goes_to_its_sender_witness :
  let results := encode_score_flag x5f x01 in
  let w2 := fst (run (deploy (0 : Z))
                   [tx 7 10 (RequestUrlMatching 11 22);
                    tx 99 20 (PerformMatching 0 results results)]) in
  step w2 (tx 7 30 GetEncryptedMatchResult) = (w2, Revert NotProcessed)
  /\ step w2 (tx 99 30 GetEncryptedMatchResult)
     = (w2, Ok (mkEffects (VEbool 1) [] [])).
Proof.
  intros results w2.
  destruct (callback_result_goes_to_its_sender (FHE := SimpleFHE)
              (mkEnv 7 10) (mkEnv 99 20) 11 22 (@deploy SimpleFHE 0)
              0 results results 95 true) as (HA & HB & _).
  - by vm_compute.
  - by vm_compute.
  - discriminate.
  - reflexivity.
  - reflexivity.
  - split; [apply (HA 30) | apply (HB 30)].
Defined.

(** X7. The match result and the cursor of an address [a] are written
    only by [a]'s own [requestUrlMatching] and [performMatching]: over
    any run in which [a] sends neither, whatever [a] and everyone else
    do, both read as before and [getEncryptedMatchResult] answers [a]
    as before. *)
Theorem client_state_isolated `{FHE : FHELib}
    (a : address) (txs : list (Env * Call)) (w : World) :
  Forall (fun tx => own_match_call a tx = false) txs ->
  let w1 := fst (run w txs) in
  match_of (storage w1) a = match_of (storage w) a
  /\ sync_of (storage w1) a = sync_of (storage w) a
  /\ (forall now,
        snd (step w1 (mkEnv a now, GetEncryptedMatchResult))
        = snd (step w (mkEnv a now, GetEncryptedMatchResult))).
Proof.
  intros Hown w1.
  destruct (run_client_state a txs w Hown) as [Hm Hs].
  fold w1 in Hm, Hs. split; [done|]. split; [done|].
  intros now. unfold step; simpl. unfold getEncryptedMatchResult; simpl.
  rewrite Hm. by destruct (isProcessed (match_of (storage w) a)).
Qed.

(** Client 7 is matched; then others write the ledger, ask for matches
    and are matched, and 7 itself only reads. *)
Lemma client_state_isolated_witness :
  let results := encode_score_flag x5f x01 in
  let w := fst (run (deploy (0 : Z))
                  [tx 7 10 (RequestUrlMatching 11 22);
                   tx 7 20 (PerformMatching 0 results results)]) in
  let txs := [tx 1 30 (AddFilteringRule 31 32 33);
              tx 8 40 (RequestUrlMatching 55 66);
              tx 8 50 (PerformMatching 1 (encode_score_flag x0a x00)
                                       (encode_score_flag x0a x00));
              tx 7 60 RequestDecisionDecryption;
              tx 7 70 GetRuleUpdates] in
  snd (step (fst (run w txs)) (tx 7 80 GetEncryptedMatchResult))
    = Ok (mkEffects (VEbool 1) [] []).
Proof.
  intros results w txs.
  destruct (client_state_isolated (FHE := SimpleFHE) 7 txs w) as (_ & _ & H).
  - repeat constructor.
  - unfold tx. rewrite (H 80). reflexivity.
Defined.

(** X8. Only [addFilteringRule] and [updateFilteringRule] write the
    ledger: over any run without them, [ruleCount], every rule,
    [lastUpdateTimestamp] and the payload of a match request stay as
    they were, and no id is handed out. *)
Theorem client_calls_keep_ledger `{FHE : FHELib}
    (txs : list (Env * Call)) (w : World) :
  no_ledger_writes txs ->
  let w1 := fst (run w txs) in
  ledger (storage w1) = ledger (storage w)
  /\ (forall i, rule_at (storage w1) i = rule_at (storage w) i)
  /\ (forall D P, match_payload (storage w1) D P
                  = match_payload (storage w) D P)
  /\ assigned_ids (snd (run w txs)) = [].
Proof.
  intros Hnw.
  assert (H : ledger (storage (fst (run w txs))) = ledger (storage w)
              /\ assigned_ids (snd (run w txs)) = []).
  { revert w. induction txs as [|[env c] txs IH]; intros w; [done|].
    apply Forall_cons in Hnw as [Hc Hnw]. simpl in Hc.
    rewrite run_cons. simpl fst. simpl snd.
    destruct (IH Hnw (fst (step w (env, c)))) as [Hl Hids].
    rewrite assigned_ids_cons, Hids, app_nil_r, Hl.
    destruct (exec env c w) as [[w' eff]|e] eqn:E.
    - rewrite (step_ok _ _ _ _ _ E). simpl.
      destruct (exec_frame _ _ _ _ _ Hc E) as (Hl' & Hlogs & _).
      split; [done|]. unfold assigned_ids. simpl.
      by rewrite Hlogs.
    - by rewrite (step_revert _ _ _ _ E). }
  destruct H as [Hl Hids]. intros w1. fold w1 in Hl.
  split; [done|]. split; [|split; [|done]].
  - intros i. by apply rule_at_ledger.
  - intros D P. unfold match_payload, rule_ids.
    assert (Hrc : ruleCount (storage w1) = ruleCount (storage w))
      by (unfold ledger in Hl; by injection Hl).
    rewrite Hrc. f_equal. apply flat_map_rule_words_ext.
    intros j _. by apply rule_at_ledger.
Qed.

Lemma client_calls_keep_ledger_witness :
  let results := encode_score_flag x5f x01 in
  let w := fst (run (deploy (0 : Z)) [tx 1 100 (AddFilteringRule 31 32 33)]) in
  let txs := [tx 7 110 (RequestUrlMatching 11 22);
              tx 7 120 (PerformMatching 0 results results);
              tx 7 130 RequestDecisionDecryption;
              tx 7 140 (DecryptDecision 1 (word_of_byte x01)
                                        (word_of_byte x01))] in
  match_payload (storage (fst (run w txs))) 11 22 = [11; 22; 31; 32; 33].
Proof.
  intros results w txs.
  destruct (client_calls_keep_ledger (FHE := SimpleFHE) txs w)
    as (_ & _ & H & _).
  - repeat constructor.
  - rewrite (H 11 22). reflexivity.
Defined.

(** ** Cursors and stamps along a run *)

Section MoreCursorFacts.
Context {FHE : FHELib}.

Lemma run_cursor_mono_app a txs2 txs1 : forall T w,
  sync_of (storage w) a <= T ->
  nondecreasing T (txs1 ++ txs2) ->
  sync_of (storage (fst (run w txs1))) a
  <= sync_of (storage (fst (run w (txs1 ++ txs2)))) a.
Proof.
  induction txs1 as [|[env c] txs1 IH]; intros T w Hs Hn.
  - simpl app. by apply (run_cursor_mono a txs2 T).
  - rewrite <- app_comm_cons, !run_cons. simpl fst.
    destruct Hn as [Hnow Hn]. simpl in Hnow, Hn.
    apply (IH (block_timestamp env)); [|done].
    destruct (exec env c w) as [[w' eff]|e] eqn:E.
    + rewrite (step_ok _ _ _ _ _ E). simpl.
      destruct (exec_sync _ _ _ _ _ a E) as [[_ ->]|[_ ->]]; lia.
    + rewrite (step_revert _ _ _ _ E). simpl. lia.
Qed.

Lemma requestDecisionDecryption_exec env w :
  isProcessed (match_of (storage w) (msg_sender env)) = true ->
  let target :=
    [ebool_toBytes32
       (encryptedShouldBlock (match_of (storage w) (msg_sender env)))] in
  let r := requestDecryption (backend w) target decryptDecision_selector in
  requestDecisionDecryption env w
  = Ok (mkWorld (storage w) (snd r),
        mkEffects VUnit []
          [DecryptionRequest target decryptDecision_selector (fst r)]).
Proof.
  intros Hp target r. unfold requestDecisionDecryption.
  rewrite Hp, require_true; simpl. subst r target.
  by destruct (requestDecryption _ _ _).
Qed.

End MoreCursorFacts.

(** X9. When block times never go back, no cursor goes back: along a
    run from deployment, the [lastSyncTimestamps] entry of an address
    after a longer run is at least what it was after a shorter one. *)
Theorem cursor_never_goes_back `{FHE : FHELib}
    (o : oracle) (txs1 txs2 : list (Env * Call)) (a : address) :
  nondecreasing 0 (txs1 ++ txs2) ->
  sync_of (storage (fst (run (deploy o) txs1))) a
  <= sync_of (storage (fst (run (deploy o) (txs1 ++ txs2)))) a.
Proof.
  intros Hn. apply (run_cursor_mono_app a txs2 txs1 0); [|done].
  unfold sync_of; simpl. by rewrite lookup_empty.
Qed.

Lemma cursor_never_goes_back_witness :
  let results := encode_score_flag x5f x01 in
  let txs1 := [tx 7 10 (RequestUrlMatching 11 22);
               tx 7 20 (PerformMatching 0 results results)] in
  let txs2 := [tx 7 30 (RequestUrlMatching 11 22);
               tx 7 40 (PerformMatching 1 results results)] in
  sync_of (storage (fst (run (deploy (0 : Z)) txs1))) 7
  <= sync_of (storage (fst (run (deploy (0 : Z)) (txs1 ++ txs2)))) 7.
Proof.
  intros results txs1 txs2.
  apply (cursor_never_goes_back (FHE := SimpleFHE) 0 txs1 txs2 7).
  simpl. lia.
Defined.

(** X10. When block times never go back, [needsUpdate] and
    [getRuleUpdates] agree in every world reached from deployment:
    [needsUpdate] answers true for an address exactly when the rules
    [getRuleUpdates] selects for it are not none; and those are the
    rules it returns whenever [ruleCount] is below the largest
    [uint256] and they are at most [2^64 - 1], the largest array the
    allocation accepts. *)
Theorem needsUpdate_iff_delta_nonempty `{FHE : FHELib}
    (o : oracle) (txs : list (Env * Call)) (env : Env) :
  nondecreasing 0 txs ->
  let st := storage (fst (run (deploy o) txs)) in
  (needsUpdate_view env st = true
   <-> changed_ids st (msg_sender env) <> [])
  /\ (ruleCount st < MAX_UINT256 ->
      Z.of_nat (length (changed_ids st (msg_sender env))) <= MAX_UINT64 ->
      getRuleUpdates_view env st = Ok (rule_updates st (msg_sender env))).
Proof.
  intros Hn st.
  destruct (deploy_inv o) as (_ & Hf0 & Hc0).
  destruct (run_inv txs 0 (deploy o) ltac:(lia) (deploy_dense o)
              (deploy_stamps o) Hf0 Hc0 Hn)
    as (T' & _ & Hd & [Hlu Hts] & Hf & Hc).
  fold st in Hd, Hlu, Hts, Hf, Hc.
  split.
  2:{ intros Hmax Halloc. apply getRuleUpdates_view_delta; [|done].
      destruct Hd as [Hpos _]. lia. }
  - unfold needsUpdate_view. rewrite Z.ltb_lt. split.
    + intros Hlt.
      destruct (Hf ltac:(specialize (Hc (msg_sender env)); lia))
        as (i & Hi & Hti).
      assert (Hin : i ∈ changed_ids st (msg_sender env))
        by (apply changed_ids_spec; split; [done|lia]).
      intros Hnil. rewrite Hnil in Hin. by apply elem_of_nil in Hin.
    + intros Hne.
      destruct (changed_ids st (msg_sender env)) as [|i l] eqn:Hl; [done|].
      assert (Hin : i ∈ changed_ids st (msg_sender env))
        by (rewrite Hl; left).
      apply changed_ids_spec in Hin as [_ Hin].
      specialize (Hts i). lia.
Qed.

Lemma needsUpdate_iff_delta_nonempty_witness :
  let results := encode_score_flag x5f x01 in
  let txs := [tx 1 100 (AddFilteringRule 31 32 33);
              tx 7 120 (RequestUrlMatching 11 22);
              tx 7 150 (PerformMatching 0 results results);
              tx 1 200 (AddFilteringRule 41 42 43)] in
  let st := storage (fst (run (deploy (0 : Z)) txs)) in
  getRuleUpdates_view (mkEnv 7 300) st = Ok ([41], [42], [43], [200])
  /\ changed_ids st 7 <> [].
Proof.
  intros results txs st.
  destruct (needsUpdate_iff_delta_nonempty (FHE := SimpleFHE) 0 txs
              (mkEnv 7 300)) as [H1 H2].
  - simpl. lia.
  - split; [by apply H2; vm_compute|]. apply H1. reflexivity.
Defined.

(** X11. [requestDecisionDecryption] consumes nothing: from a world in
    which the caller's result is processed, any number of such calls
    by the caller all go through, each asking the library to decrypt
    the same stored [encryptedShouldBlock], and the storage stays as it
    was. *)
Theorem requestDecisionDecryption_repeatable `{FHE : FHELib}
    (a : address) (txs : list (Env * Call)) (w : World) :
  isProcessed (match_of (storage w) a) = true ->
  Forall (fun tx => msg_sender (fst tx) = a
                    /\ snd tx = RequestDecisionDecryption) txs ->
  let target :=
    [ebool_toBytes32 (encryptedShouldBlock (match_of (storage w) a))] in
  storage (fst (run w txs)) = storage w
  /\ Forall (fun r => exists reqId,
               r = Ok (mkEffects VUnit []
                         [DecryptionRequest target decryptDecision_selector
                                            reqId]))
            (snd (run w txs)).
Proof.
  intros Hp Htxs target. subst target. revert w Hp.
  induction txs as [|[env c] txs IH]; intros w Hp; [by split|].
  apply Forall_cons in Htxs as [[Ha Hc] Htxs]. simpl in Ha, Hc. subst a c.
  rewrite run_cons. simpl fst. simpl snd.
  pose proof (requestDecisionDecryption_exec env w Hp) as E.
  cbv zeta in E. unfold step at 1 2 3. simpl. rewrite E. simpl.
  match goal with
  | |- context [run ?w1 txs] =>
      destruct (IH Htxs w1) as [Hst Hrs]; [done|]
  end.
  simpl in Hst, Hrs. split; [done|].
  constructor; [by eexists|done].
Qed.

Lemma requestDecisionDecryption_repeatable_witness :
  let results := encode_score_flag x5f x01 in
  let w := fst (run (deploy (0 : Z))
                  [tx 7 10 (RequestUrlMatching 11 22);
                   tx 7 20 (PerformMatching 0 results results)]) in
  snd (run w [tx 7 30 RequestDecisionDecryption;
              tx 7 40 RequestDecisionDecryption])
  = [Ok (mkEffects VUnit []
           [DecryptionRequest [1] decryptDecision_selector 1]);
     Ok (mkEffects VUnit []
           [DecryptionRequest [1] decryptDecision_selector 2])].
Proof.
  intros results w.
  destruct (requestDecisionDecryption_repeatable (FHE := SimpleFHE) 7
              [tx 7 30 RequestDecisionDecryption;
               tx 7 40 RequestDecisionDecryption] w) as [_ H].
  - reflexivity.
  - repeat constructor.
  - reflexivity.
Defined.

(** X12. After any run, [lastUpdateTimestamp] is the block time of the
    last ledger write that went through and the cursor of an address
    is the block time of its last [performMatching] that went through
    (each as before the run when there was none); so [needsUpdate]
    answers true exactly when the caller's last match callback is
    earlier than the last ledger write. *)
Theorem stamps_are_last_times `{FHE : FHELib}
    (txs : list (Env * Call)) (w : World) (env : Env) :
  let w1 := fst (run w txs) in
  let rs := snd (run w txs) in
  let written := last_write_time txs rs (lastUpdateTimestamp (storage w)) in
  let matched_at :=
    last_match_time (msg_sender env) txs rs
      (sync_of (storage w) (msg_sender env)) in
  lastUpdateTimestamp (storage w1) = written
  /\ sync_of (storage w1) (msg_sender env) = matched_at
  /\ step w1 (env, NeedsUpdate)
     = (w1, Ok (mkEffects (VBool (matched_at <? written)) [] [])).
Proof.
  intros w1 rs written matched_at.
  pose proof (run_last_write txs w) as Hw.
  pose proof (run_last_match (msg_sender env) txs w) as Hm.
  fold w1 rs written in Hw. fold w1 rs matched_at in Hm.
  split; [done|]. split; [done|].
  unfold step; simpl. unfold needsUpdate, needsUpdate_view.
  by rewrite Hw, Hm.
Qed.

Lemma stamps_are_last_times_witness :
  let results := encode_score_flag x5f x01 in
  let txs := [tx 1 100 (AddFilteringRule 31 32 33);
              tx 1 150 (UpdateFilteringRule 5 1 1 1);
              tx 7 160 (RequestUrlMatching 11 22);
              tx 7 170 (PerformMatching 0 results results);
              tx 7 180 (PerformMatching 9 results results)] in
  let w1 := fst (run (deploy (0 : Z)) txs) in
  lastUpdateTimestamp (storage w1) = 100
  /\ sync_of (storage w1) 7 = 170
  /\ step w1 (tx 7 190 NeedsUpdate)
     = (w1, Ok (mkEffects (VBool false) [] [])).
Proof.
  intros results txs w1.
  exact (stamps_are_last_times (FHE := SimpleFHE) txs (deploy (0 : Z))
           (mkEnv 7 190)).
Defined.

(** X13. The comparison of stamps with the cursor is strict and both
    are block times, so a rule written in the block of a client's
    match callback, after it, is not in that client's delta and does
    not make [needsUpdate] answer true for it. *)
Theorem same_block_write_is_missed `{FHE : FHELib}
    (env env' : Env) (requestId : Z) (results proof : bytes)
    (d p t : euint32) (w : World) (eff eff' : Effects) :
  let w1 := fst (step w (env, PerformMatching requestId results proof)) in
  let w2 := fst (step w1 (env', AddFilteringRule d p t)) in
  let a := msg_sender env in
  snd (step w (env, PerformMatching requestId results proof)) = Ok eff ->
  snd (step w1 (env', AddFilteringRule d p t)) = Ok eff' ->
  block_timestamp env' = block_timestamp env ->
  logs eff' = [RuleAdded (ruleCount (storage w) + 1) (block_timestamp env)]
  /\ rule_at (storage w2) (ruleCount (storage w) + 1)
     = mkRule d p t (block_timestamp env)
  /\ ((ruleCount (storage w) + 1) ∉ changed_ids (storage w2) a)
  /\ (forall now, step w2 (mkEnv a now, NeedsUpdate)
                  = (w2, Ok (mkEffects (VBool false) [] []))).
Proof.
  intros w1 w2 a Hok Hok' Ht.
  destruct (exec env (PerformMatching requestId results proof) w)
    as [[v1 e1]|e] eqn:E1.
  2:{ rewrite (step_revert _ _ _ _ E1) in Hok. discriminate. }
  assert (Hw1 : w1 = v1) by (subst w1; by rewrite (step_ok _ _ _ _ _ E1)).
  simpl in E1. apply performMatching_inv in E1 as (score & blk & Hv1).
  rewrite <- Hw1 in Hv1.
  destruct (exec env' (AddFilteringRule d p t) w1) as [[v2 e2]|e] eqn:E2.
  2:{ rewrite (step_revert _ _ _ _ E2) in Hok'. discriminate. }
  assert (Hw2 : w2 = v2) by (subst w2; by rewrite (step_ok _ _ _ _ _ E2)).
  rewrite (step_ok _ _ _ _ _ E2) in Hok'. simpl in Hok'.
  injection Hok' as <-.
  simpl in E2. apply addFilteringRule_inv in E2 as (_ & Hv2 & ->).
  rewrite <- Hw2 in Hv2.
  assert (Hrc : ruleCount (storage w1) = ruleCount (storage w))
    by (by rewrite Hv1).
  assert (Hcur : sync_of (storage w2) a = block_timestamp env).
  { rewrite Hv2. simpl. rewrite Hv1. simpl. unfold matched.
    apply sync_of_set_sync. }
  assert (Hnew : rule_at (storage w2) (ruleCount (storage w) + 1)
                 = mkRule d p t (block_timestamp env)).
  { rewrite Hv2. unfold rule_at; simpl. rewrite Hrc, lookup_insert_eq.
    simpl. by rewrite Ht. }
  split; [by rewrite Hrc, Ht|]. split; [done|]. split.
  - intros Hin. apply changed_ids_spec in Hin as [_ Hin].
    rewrite Hnew, Hcur in Hin. simpl in Hin. lia.
  - intros now. unfold step; simpl. unfold needsUpdate, needsUpdate_view.
    simpl. fold a. rewrite Hcur.
    assert (Hlu : lastUpdateTimestamp (storage w2) = block_timestamp env)
      by (rewrite Hv2; simpl; by rewrite Ht).
    rewrite Hlu.
    by destruct (Z.ltb_spec (block_timestamp env) (block_timestamp env));
      [lia|].
Qed.

(** Client 7 is matched in block 150; a rule is added later in the same
    block. *)
Lemma same_block_write_is_missed_witness :
  let results := encode_score_flag x5f x01 in
  let w := fst (run (deploy (0 : Z)) [tx 7 120 (RequestUrlMatching 11 22)]) in
  let w2 := fst (run w [tx 7 150 (PerformMatching 0 results results);
                        tx 1 150 (AddFilteringRule 31 32 33)]) in
  (1 ∉ changed_ids (storage w2) 7)
  /\ step w2 (tx 7 160 GetRuleUpdates)
     = (w2, Ok (mkEffects (VUpdates ([], [], [], [])) [] []))
  /\ step w2 (tx 7 160 NeedsUpdate)
     = (w2, Ok (mkEffects (VBool false) [] [])).
Proof.
  intros results w w2.
  destruct (same_block_write_is_missed (FHE := SimpleFHE)
              (mkEnv 7 150) (mkEnv 1 150) 0 results results 31 32 33 w
              (mkEffects VUnit [MatchProcessed 7] [])
              (mkEffects VUnit [RuleAdded 1 150] []))
    as (_ & _ & H3 & H4); [reflexivity..|].
  split; [exact H3|]. split; [reflexivity|]. apply (H4 160).
Defined.

(** ** The delta round trip *)

Section RoundTripFacts.
Context {FHE : FHELib}.








End RoundTripFacts.



(** ** The allocation bound *)

(** Above [2^64 - 1] payload words the allocation in
    [requestUrlMatching] panics and the call commits nothing. *)
Lemma requestUrlMatching_too_large `{FHE : FHELib}
    (env : Env) (D P : euint32) (w : World) :
  MAX_UINT64 < ruleCount (storage w) * 3 + 2 <= MAX_UINT256 ->
  step w (env, RequestUrlMatching D P) = (w, Revert AllocationTooLarge).
Proof.
  intros [Hlo Hhi]. unfold step; simpl. unfold requestUrlMatching.
  pose proof MAX_UINT64_lt_MAX_UINT256 as H64.
  rewrite checked_mul_ok by (unfold MAX_UINT64 in *; lia). simpl.
  rewrite checked_add_ok by lia. simpl.
  unfold new_array.
  by destruct (Z.leb_spec (ruleCount (storage w) * 3 + 2) MAX_UINT64);
    [lia|].
Qed.
